(** * generate_llms_txt.py: a shallow embedding of the llms.txt generator

    The script [scripts/generate_llms_txt.py] reads a fixed table of markdown
    files, cleans each one with a chain of [re.sub] calls, and writes a
    navigation index ([llms.txt]) and a full dump ([llms-full.txt]).

    Python strings are sequences of Unicode code points, so a string is a
    list of code points here; the literals of the script are written as
    UTF-8 text and decoded by [utf8]. *)

From Stdlib Require Import Ascii String.
From Stdlib Require Import List NArith ZArith Arith Bool Lia.
From Stdlib Require Import Sorted Permutation.
Import ListNotations.

(** ** Strings *)

(** A Python [str]: a list of Unicode code points. *)
Definition char := N.
Definition str := list char.

Definition nl : char := 10%N.

Definition char_eqb (a b : char) : bool := N.eqb a b.

Fixpoint str_eqb (a b : str) : bool :=
  match a, b with
  | [], [] => true
  | x :: a', y :: b' => char_eqb x y && str_eqb a' b'
  | _, _ => false
  end.

(** Decoder for the UTF-8 text of the script's literals: [pending] counts
    the continuation bytes still owed to the code point accumulated in
    [acc]. *)
Fixpoint utf8_go (pending : nat) (acc : N) (bs : list N) : str :=
  match bs with
  | [] => []
  | b :: bs' =>
      match pending with
      | O =>
          if (b <? 128)%N then b :: utf8_go 0 0%N bs'
          else if (b <? 224)%N then utf8_go 1 (b - 192)%N bs'
          else if (b <? 240)%N then utf8_go 2 (b - 224)%N bs'
          else utf8_go 3 (b - 240)%N bs'
      | S O => (acc * 64 + (b - 128))%N :: utf8_go 0 0%N bs'
      | S p => utf8_go p (acc * 64 + (b - 128))%N bs'
      end
  end.

Definition utf8 (s : string) : str :=
  utf8_go 0 0%N (map N_of_ascii (list_ascii_of_string s)).

(** [a] is a prefix of [s]: the rest of [s] after it. *)
Fixpoint drop_prefix (a s : str) : option str :=
  match a with
  | [] => Some s
  | x :: a' =>
      match s with
      | [] => None
      | y :: s' => if char_eqb x y then drop_prefix a' s' else None
      end
  end.

(** [a in s] of Python: [a] occurs in [s] as a contiguous run. *)
Fixpoint contains (a s : str) : bool :=
  match drop_prefix a s with
  | Some _ => true
  | None => match s with [] => false | _ :: s' => contains a s' end
  end.

(** ** The part of Python's [re] the script uses

    The five patterns of [_clean_markdown_content] are built from literal
    characters, a lazy [.*?], a greedy [c{n,}], a lookahead, [\Z], an
    alternation and concatenation. *)
Inductive regex : Type :=
| Chars (l : str)             (* literal characters *)
| AnyLazy (dotall : bool)     (* .*?  ([.] matches a newline under DOTALL only) *)
| Many (n : nat) (c : char)   (* c{n,} *)
| Look (r : regex)            (* (?=r) *)
| EndZ                        (* \Z *)
| Or (r1 r2 : regex)          (* r1|r2 *)
| Then (r1 r2 : regex).       (* r1r2 *)

(** Lazy repetition of one character class: the continuation is tried
    first, one more character is consumed only when it fails. *)
Fixpoint lazy_star (ok : char -> bool) (k : str -> option str) (s : str)
  : option str :=
  match k s with
  | Some rest => Some rest
  | None =>
      match s with
      | [] => None
      | c :: s' => if ok c then lazy_star ok k s' else None
      end
  end.

(** Greedy repetition of one character: as many as there are, giving one
    back at a time while the continuation fails. *)
Fixpoint greedy_star (c : char) (k : str -> option str) (s : str)
  : option str :=
  match s with
  | x :: s' =>
      if char_eqb x c then
        match greedy_star c k s' with
        | Some rest => Some rest
        | None => k s
        end
      else k s
  | [] => k s
  end.

(** Backtracking matcher in continuation-passing style: [rmatch r k s]
    matches [r] at the start of [s] and hands what follows the match to
    [k]; the result is that of the first alternative, in the engine's
    priority order, on which [k] succeeds. *)
Fixpoint rmatch (r : regex) (k : str -> option str) (s : str) : option str :=
  match r with
  | Chars l =>
      match drop_prefix l s with
      | Some s' => k s'
      | None => None
      end
  | AnyLazy dotall =>
      lazy_star (fun c => dotall || negb (char_eqb c nl)) k s
  | Many n c =>
      match drop_prefix (repeat c n) s with
      | Some s' => greedy_star c k s'
      | None => None
      end
  | Look r' =>
      match rmatch r' (fun rest => Some rest) s with
      | Some _ => k s
      | None => None
      end
  | EndZ => match s with [] => k s | _ :: _ => None end
  | Or r1 r2 =>
      match rmatch r1 k s with
      | Some rest => Some rest
      | None => rmatch r2 k s
      end
  | Then r1 r2 => rmatch r1 (rmatch r2 k) s
  end.

(** [pattern.match(s)]: the number of characters the match consumes. *)
Definition match_len (r : regex) (s : str) : option nat :=
  match rmatch r (fun rest => Some rest) s with
  | Some rest => Some (length s - length rest)
  | None => None
  end.

(** [re.search(r, s) is not None]. *)
Fixpoint has_match (r : regex) (s : str) : bool :=
  match match_len r s with
  | Some _ => true
  | None => match s with [] => false | _ :: s' => has_match r s' end
  end.

(** [re.sub(r, repl, s)] for a literal replacement: the leftmost match is
    replaced and the scan resumes after it.  [skip] counts the characters
    of the current match still to be passed over, so that the recursion is
    on the string.  An empty match puts the replacement in and moves on by
    one character. *)
Fixpoint sub_at (r : regex) (repl : str) (skip : nat) (s : str) : str :=
  match skip with
  | S k => match s with [] => [] | _ :: s' => sub_at r repl k s' end
  | O =>
      match match_len r s with
      | Some (S n) =>
          repl ++ match s with [] => [] | _ :: s' => sub_at r repl n s' end
      | Some O =>
          repl ++ match s with [] => [] | c :: s' => c :: sub_at r repl 0 s' end
      | None =>
          match s with [] => [] | c :: s' => c :: sub_at r repl 0 s' end
      end
  end.

Definition re_sub (r : regex) (repl : str) (s : str) : str :=
  sub_at r repl 0 s.

(** ** [str.strip()] *)

(** The code points [str.isspace] accepts, which [strip()] removes. *)
Definition is_space (c : char) : bool :=
  ((9 <=? c) && (c <=? 13) || (28 <=? c) && (c <=? 32)
   || (c =? 133) || (c =? 160) || (c =? 5760)
   || (8192 <=? c) && (c <=? 8202)
   || (c =? 8232) || (c =? 8233) || (c =? 8239) || (c =? 8287)
   || (c =? 12288))%N.

Fixpoint lstrip (s : str) : str :=
  match s with
  | [] => []
  | c :: s' => if is_space c then lstrip s' else s
  end.

Definition rstrip (s : str) : str := rev (lstrip (rev s)).

Definition strip (s : str) : str := rstrip (lstrip s).

(** ** The content cleaner *)

(** r'## 🎯 Table of Contents.*?(?=##|\Z)' with re.DOTALL *)
Definition toc_re : regex :=
  Then (Chars (utf8 "## 🎯 Table of Contents"))
       (Then (AnyLazy true) (Look (Or (Chars (utf8 "##")) EndZ))).

(** r'\*\*Next:\*\*.*?(?=\n|\Z)' *)
Definition next_re : regex :=
  Then (Chars (utf8 "**Next:**"))
       (Then (AnyLazy false) (Look (Or (Chars [nl]) EndZ))).

(** r'---\n\n\*Last updated:.*?(?=\n|\Z)' *)
Definition last_updated_re : regex :=
  Then (Chars (utf8 "---" ++ [nl; nl] ++ utf8 "*Last updated:"))
       (Then (AnyLazy false) (Look (Or (Chars [nl]) EndZ))).

(** r'\n{3,}' *)
Definition newlines_re : regex := Many 3 nl.

(** r'<!--.*?-->' with re.DOTALL *)
Definition comment_re : regex :=
  Then (Chars (utf8 "<!--")) (Then (AnyLazy true) (Chars (utf8 "-->"))).

Definition remove_toc (content : str) : str := re_sub toc_re [] content.
Definition remove_next (content : str) : str := re_sub next_re [] content.
Definition remove_last_updated (content : str) : str :=
  re_sub last_updated_re [] content.
Definition collapse_newlines (content : str) : str :=
  re_sub newlines_re [nl; nl] content.
Definition remove_comments (content : str) : str :=
  re_sub comment_re [] content.

Definition _clean_markdown_content (content : str) : str :=
  let content := remove_toc content in
  let content := remove_next content in
  let content := remove_last_updated content in
  let content := collapse_newlines content in
  let content := remove_comments content in
  strip content.

(** ** The data model *)

(** The dataclass [DocFile]. *)
Record DocFile : Type := mkDocFile {
  path : str;
  title : str;
  description : str;
  content : str;
  priority : Z
}.

(** One value of the [file_config] dict. *)
Record Config : Type := {
  cfg_title : str;
  cfg_description : str;
  cfg_priority : Z
}.

(** The [file_config] dict of [_parse_documentation]; a dict iterates in
    insertion order, so it is the list of its items. *)
Definition file_config : list (str * Config) :=
  [ (utf8 "README.md",
     {| cfg_title := utf8 "Documentation Index";
        cfg_description :=
          utf8 "Complete navigation hub for all Flutter App Shell documentation";
        cfg_priority := 1%Z |});
    (utf8 "getting-started.md",
     {| cfg_title := utf8 "Getting Started Guide";
        cfg_description :=
          utf8 "Step-by-step tutorial to build your first app in 5-10 minutes";
        cfg_priority := 1%Z |});
    (utf8 "architecture.md",
     {| cfg_title := utf8 "Architecture Overview";
        cfg_description :=
          utf8 "Service-oriented architecture, adaptive UI, and reactive state management principles";
        cfg_priority := 2%Z |});
    (utf8 "ui-systems/README.md",
     {| cfg_title := utf8 "Adaptive UI Systems";
        cfg_description :=
          utf8 "Complete guide to Material, Cupertino, and ForUI with implementation details";
        cfg_priority := 2%Z |});
    (utf8 "services/README.md",
     {| cfg_title := utf8 "Services Documentation";
        cfg_description :=
          utf8 "Overview of all 30+ services with architecture patterns and integration guide";
        cfg_priority := 2%Z |});
    (utf8 "examples/patterns.md",
     {| cfg_title := utf8 "Common Patterns & Examples";
        cfg_description :=
          utf8 "Real-world code examples for authentication, data management, UI patterns, and performance";
        cfg_priority := 3%Z |});
    (utf8 "migration-guide.md",
     {| cfg_title := utf8 "Migration Guide";
        cfg_description :=
          utf8 "Comprehensive guide for migrating existing Flutter apps with proven strategies";
        cfg_priority := 3%Z |});
    (utf8 "reference/best-practices.md",
     {| cfg_title := utf8 "Best Practices & Guidelines";
        cfg_description :=
          utf8 "Guidelines for maintainable, performant code with common pitfalls to avoid";
        cfg_priority := 3%Z |});
    (utf8 "services/database.md",
     {| cfg_title := utf8 "Database Service";
        cfg_description :=
          utf8 "NoSQL document database with reactive queries, cloud sync, and offline-first architecture";
        cfg_priority := 4%Z |});
    (utf8 "flutter_app_shell_spec.md",
     {| cfg_title := utf8 "Framework Specification";
        cfg_description :=
          utf8 "Comprehensive technical specification and design document";
        cfg_priority := 5%Z |}) ].

(** ** The world the script runs in *)

(** What is at a path: text that [open(...).read()] returns, or something
    on which opening or decoding raises the exception whose text is
    [err]. *)
Inductive file : Type :=
| Unreadable (err : str)
| Text (text : str).

Record world : Type := mkWorld {
  files : str -> option file;
  console : list str
}.

Definition print (line : str) (w : world) : world :=
  {| files := files w; console := console w ++ [line] |}.

(** [file_path.exists()] *)
Definition exists_ (w : world) (file_path : str) : bool :=
  match files w file_path with
  | Some _ => true
  | None => false
  end.

(** [with open(p, 'w', encoding='utf-8') as f: f.write(text)], for a path
    that can be written. *)
Definition write_file (p : str) (text : str) (w : world) : world :=
  {| files := fun q => if str_eqb q p then Some (Text text) else files w q;
     console := console w |}.

(** [str(dir / name)] for the text [dir] of a [Path]: [Path(".")] is the
    empty relative path. *)
Definition path_join (dir name : str) : str :=
  if str_eqb dir (utf8 ".") then name else dir ++ utf8 "/" ++ name.

(** ** The generator *)

(** The fields of an [LLMsTxtGenerator]. *)
Record LLMsTxtGenerator : Type := mkGenerator {
  docs_dir : str;
  output_dir : str;
  doc_files : list DocFile
}.

(** [__init__] *)
Definition init (docs_dir output_dir : str) : LLMsTxtGenerator :=
  {| docs_dir := docs_dir; output_dir := output_dir; doc_files := [] |}.

Definition read_warning (file_path e : str) : str :=
  utf8 "⚠️  Error reading " ++ file_path ++ utf8 ": " ++ e.

(** [_read_file]: the [try] covers the read and the cleaning; the cleaner
    is a total function, so only the read raises.  Opening a path that is
    not there raises [FileNotFoundError]. *)
Definition _read_file (file_path : str) (w : world) : str * world :=
  match files w file_path with
  | Some (Text text) => (_clean_markdown_content text, w)
  | Some (Unreadable e) => ([], print (read_warning file_path e) w)
  | None =>
      ([], print (read_warning file_path
                    (utf8 "[Errno 2] No such file or directory: '"
                       ++ file_path ++ utf8 "'")) w)
  end.

(** The body of the [for] loop of [_parse_documentation]. *)
Definition parse_entry (dir : str) (acc : list DocFile * world)
    (entry : str * Config) : list DocFile * world :=
  let '(docs, w) := acc in
  let '(relative_path, config) := entry in
  let file_path := path_join dir relative_path in
  if exists_ w file_path then
    let '(text, w) := _read_file file_path w in
    (docs ++ [ {| path := relative_path;
                  title := cfg_title config;
                  description := cfg_description config;
                  content := text;
                  priority := cfg_priority config |} ],
     print (utf8 "   ✓ " ++ relative_path) w)
  else (docs, w).

(** [list.sort(key=lambda x: x.priority)] is stable: records of equal
    priority keep their order.  The sorted list is built by insertion from
    the right, each record going before the first one whose priority is not
    smaller. *)
Fixpoint insert_by_priority (x : DocFile) (l : list DocFile) : list DocFile :=
  match l with
  | [] => [x]
  | y :: l' =>
      if (priority x <=? priority y)%Z then x :: l
      else y :: insert_by_priority x l'
  end.

Fixpoint sort_by_priority (l : list DocFile) : list DocFile :=
  match l with
  | [] => []
  | x :: l' => insert_by_priority x (sort_by_priority l')
  end.

Definition _parse_documentation (self : LLMsTxtGenerator) (w : world)
  : LLMsTxtGenerator * world :=
  let w := print (utf8 "📚 Parsing documentation files...") w in
  let '(docs, w) :=
    fold_left (parse_entry (docs_dir self)) file_config (doc_files self, w) in
  ({| docs_dir := docs_dir self;
      output_dir := output_dir self;
      doc_files := sort_by_priority docs |}, w).

(** *** The navigation index *)

Definition index_title : str := utf8 "# Flutter App Shell" ++ [nl; nl].

Definition index_summary : str :=
  utf8 "> A comprehensive Flutter application framework for rapid development with adaptive UI, service architecture, state management, and cloud synchronization capabilities. Zero-configuration setup with 30+ built-in services, complete UI system switching (Material/Cupertino/ForUI), offline-first architecture with cloud sync, and reactive state management using Signals.

Key Features:
- 🚀 **5-minute app creation** - Single function call creates fully-featured app
- 🎨 **Complete UI system switching** - Entire app adapts between Material, Cupertino, and ForUI design systems  
- 🔧 **30+ built-in services** - Authentication, database, networking, file storage, preferences, and more
- 📱 **Responsive navigation** - Automatic adaptation: bottom tabs → navigation rail → sidebar
- ☁️ **Offline-first architecture** - Local database with automatic cloud sync via Supabase
- 🔄 **Reactive state management** - Signals-based reactivity with granular UI updates
- 🛠️ **Service inspector** - Real-time debugging and monitoring of all services

".

Definition sections : list (str * list (str * str * str)) :=
  [ (utf8 "## Getting Started",
     [ (utf8 "Getting Started Guide", utf8 "docs/getting-started.md",
        utf8 "Step-by-step tutorial to build your first app in 5-10 minutes with working code examples");
       (utf8 "Installation & Setup", utf8 "docs/installation.md",
        utf8 "Detailed installation instructions and project setup") ]);
    (utf8 "## Architecture & Core Concepts",
     [ (utf8 "Architecture Overview", utf8 "docs/architecture.md",
        utf8 "Service-oriented architecture, dependency injection, adaptive UI factory pattern, and reactive state management");
       (utf8 "Services Documentation", utf8 "docs/services/README.md",
        utf8 "Complete guide to 30+ built-in services including database, authentication, networking, and file storage");
       (utf8 "Framework Specification", utf8 "docs/flutter_app_shell_spec.md",
        utf8 "Comprehensive technical specification covering all framework components and design decisions") ]);
    (utf8 "## UI & Design Systems",
     [ (utf8 "Adaptive UI Systems", utf8 "docs/ui-systems/README.md",
        utf8 "Complete guide to Material, Cupertino, and ForUI with factory pattern implementation and visual examples");
       (utf8 "Component Library", utf8 "docs/ui-systems/components.md",
        utf8 "30+ adaptive widgets with platform-specific implementations and usage examples") ]);
    (utf8 "## Implementation Guides",
     [ (utf8 "Common Patterns", utf8 "docs/examples/patterns.md",
        utf8 "Real-world code examples for authentication flows, data management, UI composition, navigation, and performance optimization");
       (utf8 "Best Practices", utf8 "docs/reference/best-practices.md",
        utf8 "Guidelines for maintainable, performant code with common pitfalls to avoid and recommended patterns");
       (utf8 "Migration Guide", utf8 "docs/migration-guide.md",
        utf8 "Comprehensive guide for migrating existing Flutter apps with incremental adoption strategies") ]);
    (utf8 "## Optional",
     [ (utf8 "Database Service", utf8 "docs/services/database.md",
        utf8 "NoSQL document database with Isar backend, reactive queries, cloud sync, and conflict resolution");
       (utf8 "API Reference", utf8 "docs/api/README.md",
        utf8 "Complete API documentation for all services and components");
       (utf8 "Advanced Topics", utf8 "docs/advanced/README.md",
        utf8 "Custom services, performance optimization, and extending the framework") ]) ].

(** [s.replace(old, new)]: every occurrence of [old], left to right. *)
Fixpoint replace_at (old new : str) (skip : nat) (s : str) : str :=
  match skip with
  | S k => match s with [] => [] | _ :: s' => replace_at old new k s' end
  | O =>
      match s with
      | [] => match old with [] => new | _ :: _ => [] end
      | c :: s' =>
          match old, drop_prefix old s with
          | _ :: _, Some _ => new ++ replace_at old new (length old - 1) s'
          | [], _ => new ++ c :: replace_at old new 0 s'
          | _, None => c :: replace_at old new 0 s'
          end
      end
  end.

Definition replace (old new s : str) : str := replace_at old new 0 s.

(** f"- [{link_title}]({link_path}) - {description}\n" *)
Definition link_line (link : str * str * str) : str :=
  let '(link_title, link_path, description) := link in
  utf8 "- [" ++ link_title ++ utf8 "](" ++ link_path ++ utf8 ") - "
    ++ description ++ [nl].

(** any(doc.path == link_path.replace("docs/", "") for doc in self.doc_files) *)
Definition link_exists (docs : list DocFile) (link : str * str * str) : bool :=
  let '(_, link_path, _) := link in
  existsb (fun doc => str_eqb (path doc) (replace (utf8 "docs/") [] link_path))
          docs.

(** What one section appends to [content_parts]. *)
Definition section_parts (docs : list DocFile)
    (section : str * list (str * str * str)) : list str :=
  let '(section_title, links) := section in
  (section_title ++ [nl])
    :: map link_line (filter (link_exists docs) links) ++ [[nl]].

(** [content_parts] at the end of [_build_llms_txt_content]. *)
Definition index_content_parts (self : LLMsTxtGenerator) : list str :=
  [index_title; index_summary]
    ++ flat_map (section_parts (doc_files self)) sections.

Definition _build_llms_txt_content (self : LLMsTxtGenerator) : str :=
  concat (index_content_parts self).

Definition _generate_llms_txt (self : LLMsTxtGenerator) (w : world) : world :=
  let w := print (utf8 "📝 Generating /llms.txt (navigation index)...") w in
  let content := _build_llms_txt_content self in
  write_file (path_join (output_dir self) (utf8 "llms.txt")) content w.

(** *** The full dump *)

Definition full_title : str :=
  utf8 "# Flutter App Shell - Complete Documentation" ++ [nl; nl].

Definition full_overview : str :=
  utf8 "> A comprehensive Flutter application framework for rapid development with adaptive UI, service architecture, state management, and cloud synchronization capabilities. This document contains the complete framework documentation optimized for large language model consumption.

## Framework Overview

Flutter App Shell provides a zero-configuration foundation for Flutter applications with:

- **Service-Oriented Architecture**: Dependency injection with GetIt, reactive services, health monitoring
- **Adaptive UI System**: Complete runtime switching between Material, Cupertino, and ForUI design systems
- **Reactive State Management**: Signals-based reactivity with granular UI updates and automatic persistence
- **Responsive Navigation**: Automatic layout adaptation (bottom tabs → navigation rail → sidebar)
- **Offline-First Data**: Local Isar database with automatic Supabase cloud sync and conflict resolution
- **30+ Built-in Services**: Authentication, database, networking, file storage, preferences, and more

".

Definition _build_quick_reference : str :=
  utf8 "---

## Quick Reference for AI Development

### Basic App Setup
```dart
import 'package:flutter_app_shell/flutter_app_shell.dart';

void main() {
  runShellApp(() async {
    return AppConfig(
      title: 'My App',
      routes: [
        AppRoute(
          title: 'Home',
          path: '/',
          icon: Icons.home,
          builder: (context, state) => HomeScreen(),
        ),
      ],
    );
  });
}
```

### Using Services
```dart
// Get service from dependency injection
final db = getIt<DatabaseService>();
final auth = getIt<AuthenticationService>();

// Create reactive data
await db.create('todos', {
  'title': 'Buy groceries',
  'completed': false,
});

// Watch for changes
db.watchByType('todos').listen((documents) {
  print('Todos updated: ${documents.length}');
});
```

### Adaptive UI Pattern
```dart
class MyWidget extends StatelessWidget {
  @override
  Widget build(BuildContext context) {
    final ui = getAdaptiveFactory(context);
    
    return ui.scaffold(
      body: Column(
        children: [
          ui.button(
            label: 'Adaptive Button',
            onPressed: () {},
          ),
          ui.textField(
            labelText: 'Adaptive Input',
            onChanged: (value) {},
          ),
        ],
      ),
    );
  }
}
```

### Reactive State with Signals
```dart
// Create reactive state
final counter = signal(0);

// Watch in UI (automatically rebuilds)
Watch((context) => Text('Count: ${counter.value}'))

// Update from anywhere
counter.value++;
```

### Key Patterns to Follow
1. **Always use adaptive factory**: `getAdaptiveFactory(context)` instead of platform-specific widgets
2. **Service-first architecture**: Business logic in services, not widgets
3. **Reactive UI**: Use `Watch()` widgets for automatic updates
4. **Dependency injection**: Access services via `getIt<ServiceType>()`
5. **Offline-first**: Local database with automatic cloud sync

This framework follows Material Design, iOS Human Interface Guidelines, and modern minimalist design principles depending on the selected UI system.
".

(** What one record appends to [content_parts]: nothing when its content
    is empty once stripped. *)
Definition doc_parts (doc : DocFile) : list str :=
  match strip (content doc) with
  | [] => []
  | _ :: _ =>
      [ [nl] ++ utf8 "---" ++ [nl; nl] ++ utf8 "## " ++ title doc ++ [nl; nl];
        utf8 "*" ++ description doc ++ utf8 "*" ++ [nl; nl];
        content doc;
        [nl; nl] ]
  end.

(** [content_parts] at the end of [_generate_llms_full_txt]. *)
Definition full_content_parts (self : LLMsTxtGenerator) : list str :=
  [full_title; full_overview]
    ++ flat_map doc_parts (doc_files self)
    ++ [_build_quick_reference].

Definition full_content (self : LLMsTxtGenerator) : str :=
  collapse_newlines (concat (full_content_parts self)).

Definition _generate_llms_full_txt (self : LLMsTxtGenerator) (w : world)
  : world :=
  let w := print (utf8 "📄 Generating /llms-full.txt (complete content)...") w in
  write_file (path_join (output_dir self) (utf8 "llms-full.txt"))
             (full_content self) w.

(** *** The run *)

Definition run (self : LLMsTxtGenerator) (w : world)
  : LLMsTxtGenerator * world :=
  let w := print (utf8 "🚀 Generating llms.txt files for Flutter App Shell...") w in
  let '(self, w) := _parse_documentation self w in
  let w := _generate_llms_txt self w in
  let w := _generate_llms_full_txt self w in
  let w := print (utf8 "✅ Successfully generated llms.txt files!") w in
  let w := print (utf8 "   📄 " ++ output_dir self ++ utf8 "/llms.txt") w in
  let w := print (utf8 "   📄 " ++ output_dir self ++ utf8 "/llms-full.txt") w in
  (self, w).

(** [main], once the working directory is the project root: a new
    generator with the default directories. *)
Definition main (w : world) : world :=
  snd (run (init (utf8 "docs") (utf8 ".")) w).

(** * Vocabulary of the properties *)

(** A lower bound on the length of what a pattern matches. *)
Fixpoint min_len (r : regex) : nat :=
  match r with
  | Chars l => length l
  | AnyLazy _ => 0
  | Many n _ => n
  | Look _ => 0
  | EndZ => 0
  | Or r1 r2 => Nat.min (min_len r1) (min_len r2)
  | Then r1 r2 => min_len r1 + min_len r2
  end.

(** None of the five patterns of the cleaner matches anywhere in [y]. *)
Definition nothing_to_clean (y : str) : bool :=
  negb (has_match toc_re y) && negb (has_match next_re y)
  && negb (has_match last_updated_re y) && negb (has_match newlines_re y)
  && negb (has_match comment_re y).

(** A page with a table of contents, a breadcrumb, a comment, blank lines
    and a footer. *)
Definition sample_page : str :=
  utf8 "  # Guide

## 🎯 Table of Contents
- [Setup](#setup)
- [Use](#use)

## Setup
<!-- draft -->Install it.



## Use
Call it.

**Next:** [Other](other.md)

---

*Last updated: 2024-01-01*
".

(** The "**Next:**" and "Last updated" patterns: a literal, then the rest
    of its line. *)
Definition line_tail_re (l : str) : regex :=
  Then (Chars l) (Then (AnyLazy false) (Look (Or (Chars [nl]) EndZ))).

(** The literal the footer pattern starts with: the rule, a blank line and
    the start of the footer line. *)
Definition footer_marker : str :=
  utf8 "---" ++ [nl; nl] ++ utf8 "*Last updated:".

(** The end of a line: the end of the text or a newline. *)
Definition at_line_end (tail : str) : Prop :=
  tail = [] \/ exists t, tail = nl :: t.

(** Whether [l] starts at one of the first [n] positions of [s]. *)
Fixpoint occurs_before (l : str) (n : nat) (s : str) : bool :=
  match n with
  | O => false
  | S n' =>
      match drop_prefix l s with
      | Some _ => true
      | None =>
          match s with
          | [] => false
          | _ :: s' => occurs_before l n' s'
          end
      end
  end.


(** [a] occurs in [s]. *)
Definition occurs (a s : str) : Prop := exists pre post, s = pre ++ a ++ post.

(** The text whose lines are [bodies], each ended by a newline. *)
Definition unlines (bodies : list str) : str :=
  concat (map (fun b => b ++ [nl]) bodies).

(** The lines of a text. *)
Fixpoint split_lines (cur : str) (s : str) : list str :=
  match s with
  | [] => match cur with [] => [] | _ :: _ => [rev cur] end
  | c :: s' =>
      if char_eqb c nl then rev cur :: split_lines [] s'
      else split_lines (c :: cur) s'
  end.

Definition no_nl (b : str) : bool := forallb (fun c => negb (char_eqb c nl)) b.

(** [a] is the end of [b]. *)
Definition is_suffix (a b : str) : bool :=
  match drop_prefix (rev a) (rev b) with
  | Some _ => true
  | None => false
  end.

Definition link_target (link : str * str * str) : str :=
  let '(_, link_path, _) := link in link_path.

(** The link triples of all sections, in order. *)
Definition all_links : list (str * str * str) := flat_map snd sections.

(** A path without its leading "docs/", when it has one. *)
Definition without_docs_prefix (p : str) : str :=
  match drop_prefix (utf8 "docs/") p with
  | Some rest => rest
  | None => p
  end.

Definition link_eqb (a b : str * str * str) : bool :=
  let '(t1, p1, d1) := a in
  let '(t2, p2, d2) := b in
  str_eqb t1 t2 && str_eqb p1 p2 && str_eqb d1 d2.

(** A link line without its newline. *)
Definition link_body (link : str * str * str) : str :=
  let '(link_title, link_path, description) := link in
  utf8 "- [" ++ link_title ++ utf8 "](" ++ link_path ++ utf8 ") - "
    ++ description.

(** The lines of the title and the summary. *)
Definition header_lines : list str :=
  split_lines [] (index_title ++ index_summary).

(** The lines one section contributes. *)
Definition section_lines (docs : list DocFile)
    (section : str * list (str * str * str)) : list str :=
  fst section :: map link_body (filter (link_exists docs) (snd section)) ++ [[]].

Definition index_lines (self : LLMsTxtGenerator) : list str :=
  header_lines ++ flat_map (section_lines (doc_files self)) sections.

(** The lines that are in every index. *)
Definition fixed_lines : list str := header_lines ++ map fst sections ++ [[]].

(** The first section of the table and its first link. *)
Definition getting_started_section : str * list (str * str * str) :=
  hd ([], []) sections.

Definition getting_started_link : str * str * str :=
  hd ([], [], []) (snd getting_started_section).

Definition record_of (p text : str) (n : Z) : DocFile :=
  {| path := p; title := utf8 "T"; description := utf8 "D";
     content := text; priority := n |}.

(** A generator that loaded the guide and the architecture page. *)
Definition two_pages : LLMsTxtGenerator :=
  {| docs_dir := utf8 "docs"; output_dir := utf8 ".";
     doc_files := [ record_of (utf8 "getting-started.md") (utf8 "Hello") 1;
                    record_of (utf8 "architecture.md") (utf8 "World") 2 ] |}.

(** The same two pages, with other texts and priorities, in another order
    and one of them twice, in a generator with other directories. *)
Definition two_pages_again : LLMsTxtGenerator :=
  {| docs_dir := utf8 "manual"; output_dir := utf8 "out";
     doc_files := [ record_of (utf8 "architecture.md") [] 7;
                    record_of (utf8 "getting-started.md") (utf8 "Bye") 3;
                    record_of (utf8 "architecture.md") (utf8 "Again") 1 ] |}.

(** What a file contributes as the content of its record. *)
Definition entry_content (f : file) : str :=
  match f with
  | Text text => _clean_markdown_content text
  | Unreadable _ => []
  end.

(** The record of a configured path. *)
Definition entry_record (entry : str * Config) (text : str) : DocFile :=
  {| path := fst entry;
     title := cfg_title (snd entry);
     description := cfg_description (snd entry);
     content := text;
     priority := cfg_priority (snd entry) |}.

(** The records one entry of the table adds. *)
Definition entry_docs (fs : str -> option file) (dir : str)
    (entry : str * Config) : list DocFile :=
  match fs (path_join dir (fst entry)) with
  | Some f => [entry_record entry (entry_content f)]
  | None => []
  end.

(** The lines one entry of the table prints. *)
Definition entry_log (fs : str -> option file) (dir : str)
    (entry : str * Config) : list str :=
  match fs (path_join dir (fst entry)) with
  | Some (Text _) => [utf8 "   ✓ " ++ fst entry]
  | Some (Unreadable e) =>
      [read_warning (path_join dir (fst entry)) e; utf8 "   ✓ " ++ fst entry]
  | None => []
  end.

(** The records of the configured paths that are there, in the order of
    the table. *)
Definition loaded (fs : str -> option file) (dir : str) : list DocFile :=
  flat_map (entry_docs fs dir) file_config.

(** The place of a path in the configuration table. *)
Fixpoint index_of (p : str) (l : list str) : nat :=
  match l with
  | [] => 0
  | x :: l' => if str_eqb x p then 0 else S (index_of p l')
  end.

Definition config_index (p : str) : nat := index_of p (map fst file_config).

(** [a] goes before [b] in the full dump: by priority, and by the order of
    the table among records of one priority. *)
Definition before (a b : DocFile) : Prop :=
  (priority a < priority b)%Z
  \/ (priority a = priority b
      /\ config_index (path a) < config_index (path b)).

Definition table_order (a b : DocFile) : Prop :=
  config_index (path a) < config_index (path b).

Fixpoint increasing (l : list nat) : bool :=
  match l with
  | [] => true
  | x :: l' => forallb (fun y => x <? y) l' && increasing l'
  end.

(** The generator after parsing in a world whose files are [fs]. *)
Definition parsed (self : LLMsTxtGenerator) (fs : str -> option file)
  : LLMsTxtGenerator :=
  {| docs_dir := docs_dir self;
     output_dir := output_dir self;
     doc_files :=
       sort_by_priority (doc_files self ++ loaded fs (docs_dir self)) |}.

(** The lines a run prints after parsing. *)
Definition closing_lines (out : str) : list str :=
  [ utf8 "📝 Generating /llms.txt (navigation index)...";
    utf8 "📄 Generating /llms-full.txt (complete content)...";
    utf8 "✅ Successfully generated llms.txt files!";
    utf8 "   📄 " ++ out ++ utf8 "/llms.txt";
    utf8 "   📄 " ++ out ++ utf8 "/llms-full.txt" ].

(** The four parts of a record's section: the rule and the H2 title, the
    description in italics, the content, a blank line. *)
Definition doc_section (doc : DocFile) : list str :=
  [ [nl] ++ utf8 "---" ++ [nl; nl] ++ utf8 "## " ++ title doc ++ [nl; nl];
    utf8 "*" ++ description doc ++ utf8 "*" ++ [nl; nl];
    content doc;
    [nl; nl] ].

Definition has_content (doc : DocFile) : bool :=
  match content doc with
  | [] => false
  | _ :: _ => true
  end.

(** The generator [main] works with, after parsing. *)
Definition main_generator (fs : str -> option file) : LLMsTxtGenerator :=
  parsed (init (utf8 "docs") (utf8 ".")) fs.

(** A world in which [docs/README.md] is a page, [docs/architecture.md]
    cannot be decoded, and no other configured file is there. *)
Definition sample_world : world :=
  {| files := fun q =>
       if str_eqb q (utf8 "docs/README.md") then Some (Text sample_page)
       else if str_eqb q (utf8 "docs/architecture.md")
       then Some (Unreadable (utf8 "invalid start byte"))
       else None;
     console := [] |}.

Definition architecture_entry : str * Config :=
  nth 2 file_config ([], {| cfg_title := []; cfg_description := [];
                            cfg_priority := 0 |}).

Definition getting_started_entry : str * Config :=
  nth 1 file_config ([], {| cfg_title := []; cfg_description := [];
                            cfg_priority := 0 |}).

(** The number of newlines a text starts with. *)
Fixpoint run_len (s : str) : nat :=
  match s with
  | c :: s' => if char_eqb c nl then S (run_len s') else 0
  | [] => 0
  end.

(** [a] is [b] with some characters left out. *)
Inductive Subseq : str -> str -> Prop :=
| Subseq_nil : Subseq [] []
| Subseq_keep c a b : Subseq a b -> Subseq (c :: a) (c :: b)
| Subseq_skip c a b : Subseq a b -> Subseq a (c :: b).

(** A text with a run of four newlines and no comment. *)
Definition spaced_page : str := utf8 "a" ++ [nl; nl; nl; nl] ++ utf8 "b".

(** The literal the table-of-contents pattern starts with. *)
Definition toc_marker : str := utf8 "## 🎯 Table of Contents".

(** Where the table-of-contents pattern stops: at a heading or at the end
    of the text. *)
Definition at_heading_or_end (tail : str) : Prop :=
  tail = [] \/ exists t, tail = utf8 "##" ++ t.

(** [l] does not start in [s] before position [n]. *)
Definition first_at (l : str) (n : nat) (s : str) : Prop :=
  forall a b, s = a ++ l ++ b -> n <= length a.

(** A page that opens with a title and a table of contents. *)
Definition toc_page_body : str := utf8 "# Guide" ++ [nl; nl].

Definition toc_page_items : str :=
  [nl] ++ utf8 "- [Setup](#setup)" ++ [nl] ++ utf8 "- [Use](#use)" ++ [nl; nl].

Definition toc_page_tail : str :=
  utf8 "## Setup" ++ [nl] ++ utf8 "Install it." ++ [nl].

(** The opening and the closing of an HTML comment. *)
Definition comment_open : str := utf8 "<!--".

Definition comment_close : str := utf8 "-->".

(** The configured entries whose file is there. *)
Definition present (w : world) (dir : str) : list (str * Config) :=
  filter (fun entry => exists_ w (path_join dir (fst entry))) file_config.

(** [a] does not go after [b] in order of priority. *)
Definition priority_le (a b : DocFile) : Prop := (priority a <= priority b)%Z.

(** The records of priority [p], in the order they have in [l]. *)
Definition of_priority (p : Z) (l : list DocFile) : list DocFile :=
  filter (fun doc => (priority doc =? p)%Z) l.

(** A world in which [docs/README.md] holds white space only. *)
Definition blank_world : world :=
  {| files := fun q =>
       if str_eqb q (utf8 "docs/README.md")
       then Some (Text ([nl] ++ utf8 "   " ++ [nl; nl]))
       else None;
     console := [] |}.

Definition readme_entry : str * Config :=
  nth 0 file_config ([], {| cfg_title := []; cfg_description := [];
                            cfg_priority := 0 |}).

(** The overview of the full dump without the blank line that ends it. *)
Definition overview_body : str := removelast (removelast full_overview).

(** [s] starts with [m]. *)
Definition starts_with (m s : str) : Prop := exists t, s = m ++ t.

(** Where a pattern that runs up to [d] stops: at the end of the text or
    at a [d]. *)
Definition stops_at (d : str) (tail : str) : Prop :=
  tail = [] \/ exists t, tail = d ++ t.

(** The text of a footer line starts with. *)
Definition last_updated_text : str := utf8 "*Last updated:".

(** The literal of the breadcrumb pattern. *)
Definition next_marker : str := utf8 "**Next:**".

(** A page with a table of contents, a breadcrumb and runs of blank
    lines, and neither comment nor footer. *)
Definition plain_page : str :=
  utf8 "# Guide

## 🎯 Table of Contents
- [Setup](#setup)
- [Use](#use)

## Setup
Install *it*.



## Use
Call it. **Next:** [Other](other.md)


".

(** The table-of-contents heading after its two number signs. *)
Definition toc_heading_text : str := utf8 " 🎯 Table of Contents".

Definition number_sign : char := 35%N.

(** The test of [_generate_llms_full_txt]: [doc.content.strip()] is not
    empty. *)
Definition has_text (doc : DocFile) : bool :=
  match strip (content doc) with
  | [] => false
  | _ :: _ => true
  end.

(** A generator that holds two records out of order before it runs. *)
Definition unsorted_generator : LLMsTxtGenerator :=
  {| docs_dir := utf8 "docs"; output_dir := utf8 ".";
     doc_files := [ record_of (utf8 "z.md") (utf8 "Z") 5;
                    record_of (utf8 "a.md") (utf8 "A") 1 ] |}.

(** * Properties *)

(** ** Strings *)

Lemma char_eqb_eq (a b : char) : char_eqb a b = true <-> a = b.
Proof. apply N.eqb_eq. Qed.

Lemma str_eqb_eq (a b : str) : str_eqb a b = true <-> a = b.
Proof.
  revert b; induction a as [|x a IH]; intros [|y b]; simpl;
    try (split; [discriminate | discriminate]); try tauto.
  rewrite andb_true_iff, char_eqb_eq, IH.
  split; [intros [-> ->]; reflexivity | intros H; inversion H; auto].
Qed.

Lemma str_eqb_refl (a : str) : str_eqb a a = true.
Proof. apply str_eqb_eq; reflexivity. Qed.

Lemma str_eqb_neq (a b : str) : str_eqb a b = false <-> a <> b.
Proof.
  rewrite <- str_eqb_eq. destruct (str_eqb a b); split; congruence.
Qed.

Lemma drop_prefix_app (a s t : str) : drop_prefix a s = Some t <-> s = a ++ t.
Proof.
  revert s; induction a as [|x a IH]; intros s; simpl.
  - split; congruence.
  - destruct s as [|y s]; [split; discriminate|].
    destruct (char_eqb x y) eqn:E.
    + apply char_eqb_eq in E; subst y. rewrite IH.
      split; [intros ->; reflexivity | intros H; inversion H; auto].
    + split; [discriminate|]. intros H; inversion H; subst.
      rewrite (proj2 (char_eqb_eq _ _) eq_refl) in E; discriminate.
Qed.

Lemma drop_prefix_self (a t : str) : drop_prefix a (a ++ t) = Some t.
Proof. apply drop_prefix_app; reflexivity. Qed.

(** ** The matcher consumes a prefix of its input *)

Lemma lazy_star_consumes ok k s v :
  lazy_star ok k s = Some v ->
  exists pre s', s = pre ++ s' /\ k s' = Some v.
Proof.
  induction s as [|c s IH]; simpl; destruct (k _) eqn:E; intros H.
  - exists [], []; split; [reflexivity | congruence].
  - discriminate.
  - exists [], (c :: s); split; [reflexivity | congruence].
  - destruct (ok c); [|discriminate].
    destruct (IH H) as (pre & s' & -> & Hk).
    exists (c :: pre), s'; auto.
Qed.

Lemma greedy_star_consumes c k s v :
  greedy_star c k s = Some v ->
  exists pre s', s = pre ++ s' /\ k s' = Some v.
Proof.
  induction s as [|x s IH]; simpl; intros H.
  - exists [], []; auto.
  - destruct (char_eqb x c).
    + destruct (greedy_star c k s) eqn:E.
      * destruct (IH H) as (pre & s' & -> & Hk).
        exists (x :: pre), s'; split; [reflexivity | congruence].
      * exists [], (x :: s); auto.
    + exists [], (x :: s); auto.
Qed.

Lemma rmatch_consumes r : forall k s v,
  rmatch r k s = Some v ->
  exists pre s', s = pre ++ s' /\ min_len r <= length pre /\ k s' = Some v.
Proof.
  induction r as [l|d|n c|r IH| |r1 IH1 r2 IH2|r1 IH1 r2 IH2];
    intros k s v H; simpl in *.
  - destruct (drop_prefix l s) as [s'|] eqn:E; [|discriminate].
    apply drop_prefix_app in E. exists l, s'; auto.
  - destruct (lazy_star_consumes _ _ _ _ H) as (pre & s' & -> & Hk).
    exists pre, s'; repeat split; auto; lia.
  - destruct (drop_prefix (repeat c n) s) as [s1|] eqn:E; [|discriminate].
    apply drop_prefix_app in E; subst s.
    destruct (greedy_star_consumes _ _ _ _ H) as (pre & s' & -> & Hk).
    exists (repeat c n ++ pre), s'.
    rewrite <- app_assoc, length_app, repeat_length.
    repeat split; auto; lia.
  - destruct (rmatch r _ s); [|discriminate].
    exists [], s; repeat split; auto; simpl; lia.
  - destruct s; [|discriminate]. exists [], []; repeat split; auto.
  - destruct (rmatch r1 k s) eqn:E.
    + destruct (IH1 _ _ _ E) as (pre & s' & -> & Hl & Hk).
      exists pre, s'; repeat split; [lia | congruence].
    + destruct (IH2 _ _ _ H) as (pre & s' & -> & Hl & Hk).
      exists pre, s'; repeat split; [lia | congruence].
  - destruct (IH1 _ _ _ H) as (pre1 & s1 & -> & Hl1 & Hk1).
    destruct (IH2 _ _ _ Hk1) as (pre2 & s2 & -> & Hl2 & Hk2).
    exists (pre1 ++ pre2), s2.
    rewrite <- app_assoc, length_app. repeat split; auto; lia.
Qed.

Lemma match_len_bounds r s n :
  match_len r s = Some n -> min_len r <= n <= length s.
Proof.
  unfold match_len. destruct (rmatch r _ s) as [rest|] eqn:E; [|discriminate].
  intros H; inversion H; subst n; clear H.
  destruct (rmatch_consumes _ _ _ _ E) as (pre & s' & -> & Hl & Hk).
  inversion Hk; subst s'. rewrite length_app. lia.
Qed.

(** ** [re.sub] with a replacement shorter than every match *)

Section Substitution.

Variable r : regex.
Variable repl : str.
Hypothesis repl_shorter : length repl < min_len r.

Lemma sub_at_length s : forall skip,
  length (sub_at r repl skip s) + Nat.min skip (length s) <= length s.
Proof using repl_shorter.
  induction s as [|c s IH]; intros [|k]; simpl; try lia.
  - destruct (match_len r []) as [[|n]|] eqn:E; simpl; try lia;
      apply match_len_bounds in E; simpl in E; lia.
  - destruct (match_len r (c :: s)) as [[|n]|] eqn:E.
    + apply match_len_bounds in E; lia.
    + apply match_len_bounds in E; simpl in E.
      rewrite length_app. specialize (IH n). lia.
    + simpl. specialize (IH 0). lia.
  - specialize (IH k). lia.
Qed.

Lemma re_sub_length s : length (re_sub r repl s) <= length s.
Proof using repl_shorter.
  unfold re_sub. pose proof (sub_at_length s 0). lia.
Qed.

(** Where the pattern matches nowhere, nothing is replaced. *)
Lemma re_sub_no_match s : has_match r s = false -> re_sub r repl s = s.
Proof using Type.
  unfold re_sub. induction s as [|c s IH]; simpl.
  - destruct (match_len r []); [discriminate | reflexivity].
  - destruct (match_len r (c :: s)); [discriminate|].
    intros H. rewrite (IH H). reflexivity.
Qed.

(** Where it matches somewhere, the result is strictly shorter. *)
Lemma re_sub_shrinks s :
  has_match r s = true -> length (re_sub r repl s) < length s.
Proof using repl_shorter.
  unfold re_sub. induction s as [|c s IH]; simpl.
  - destruct (match_len r []) as [n|] eqn:E; [|discriminate].
    apply match_len_bounds in E; simpl in E; lia.
  - destruct (match_len r (c :: s)) as [[|n]|] eqn:E; intros H.
    + apply match_len_bounds in E; lia.
    + apply match_len_bounds in E; simpl in E.
      rewrite length_app. pose proof (sub_at_length s n). lia.
    + simpl. specialize (IH H). lia.
Qed.

End Substitution.

(** ** [strip] *)

Lemma lstrip_length s : length (lstrip s) <= length s.
Proof.
  induction s as [|c s IH]; simpl; [lia|].
  destruct (is_space c); simpl; lia.
Qed.

Lemma lstrip_head s c t : lstrip s = c :: t -> is_space c = false.
Proof.
  induction s as [|x s IH]; simpl; [discriminate|].
  destruct (is_space x) eqn:E; [exact IH|].
  intros H; inversion H; subst; exact E.
Qed.

Lemma lstrip_idem s : lstrip (lstrip s) = lstrip s.
Proof.
  induction s as [|c s IH]; simpl; [reflexivity|].
  destruct (is_space c) eqn:E; [exact IH|].
  simpl. rewrite E. reflexivity.
Qed.

Lemma lstrip_snoc a c : is_space c = false -> lstrip (a ++ [c]) = lstrip a ++ [c].
Proof.
  intros Hc. induction a as [|x a IH]; simpl.
  - rewrite Hc. reflexivity.
  - destruct (is_space x); [exact IH | reflexivity].
Qed.

Lemma rstrip_length s : length (rstrip s) <= length s.
Proof.
  unfold rstrip. rewrite length_rev.
  pose proof (lstrip_length (rev s)). rewrite length_rev in *. lia.
Qed.

Lemma rstrip_idem s : rstrip (rstrip s) = rstrip s.
Proof.
  unfold rstrip. rewrite rev_involutive, lstrip_idem. reflexivity.
Qed.

Lemma rstrip_cons c t : is_space c = false -> rstrip (c :: t) = c :: rstrip t.
Proof.
  intros Hc. unfold rstrip. simpl.
  rewrite (lstrip_snoc _ _ Hc), rev_app_distr. reflexivity.
Qed.

Lemma strip_length s : length (strip s) <= length s.
Proof.
  unfold strip. pose proof (rstrip_length (lstrip s)).
  pose proof (lstrip_length s). lia.
Qed.

Lemma strip_idem s : strip (strip s) = strip s.
Proof.
  unfold strip. destruct (lstrip s) as [|c t] eqn:E.
  - reflexivity.
  - pose proof (lstrip_head _ _ _ E) as Hc.
    rewrite (rstrip_cons _ _ Hc). simpl. rewrite Hc.
    rewrite (rstrip_cons _ _ Hc), rstrip_idem. reflexivity.
Qed.

(** A string [strip] leaves alone is empty or has a character that is not
    white space at each end; in particular stripping it again, or testing
    it for emptiness after stripping, changes nothing. *)
Lemma strip_fixed_empty s : strip s = s -> (strip s = [] <-> s = []).
Proof. intros ->. tauto. Qed.

(** ** The cleaner's fixed points *)

Lemma toc_re_shorter : length (@nil char) < min_len toc_re.
Proof. apply Nat.ltb_lt. reflexivity. Qed.

Lemma next_re_shorter : length (@nil char) < min_len next_re.
Proof. apply Nat.ltb_lt. reflexivity. Qed.

Lemma last_updated_re_shorter : length (@nil char) < min_len last_updated_re.
Proof. apply Nat.ltb_lt. reflexivity. Qed.

Lemma newlines_re_shorter : length [nl; nl] < min_len newlines_re.
Proof. apply Nat.ltb_lt. reflexivity. Qed.

Lemma comment_re_shorter : length (@nil char) < min_len comment_re.
Proof. apply Nat.ltb_lt. reflexivity. Qed.

Lemma clean_length x : length (_clean_markdown_content x) <= length x.
Proof.
  unfold _clean_markdown_content, remove_toc, remove_next,
    remove_last_updated, collapse_newlines, remove_comments.
  eapply Nat.le_trans; [apply strip_length|].
  eapply Nat.le_trans; [apply (re_sub_length _ _ comment_re_shorter)|].
  eapply Nat.le_trans; [apply (re_sub_length _ _ newlines_re_shorter)|].
  eapply Nat.le_trans; [apply (re_sub_length _ _ last_updated_re_shorter)|].
  eapply Nat.le_trans; [apply (re_sub_length _ _ next_re_shorter)|].
  apply (re_sub_length _ _ toc_re_shorter).
Qed.

Lemma clean_stripped x :
  strip (_clean_markdown_content x) = _clean_markdown_content x.
Proof. unfold _clean_markdown_content. apply strip_idem. Qed.

(** The cleaner leaves [y] as it is exactly when no pattern matches in it
    and it has no white space at either end. *)
Lemma clean_fixed_point_iff y :
  _clean_markdown_content y = y <->
  nothing_to_clean y = true /\ strip y = y.
Proof.
  split.
  - intros Hfix. split.
    + unfold nothing_to_clean.
      pose proof (f_equal (@length char) Hfix) as Hlen.
      unfold _clean_markdown_content, remove_toc, remove_next,
        remove_last_updated, collapse_newlines, remove_comments in Hlen.
      pose proof (strip_length
        (re_sub comment_re [] (re_sub newlines_re [nl; nl]
          (re_sub last_updated_re [] (re_sub next_re []
            (re_sub toc_re [] y)))))) as L6.
      pose proof (re_sub_length _ _ comment_re_shorter
        (re_sub newlines_re [nl; nl] (re_sub last_updated_re []
          (re_sub next_re [] (re_sub toc_re [] y))))) as L5.
      pose proof (re_sub_length _ _ newlines_re_shorter
        (re_sub last_updated_re [] (re_sub next_re []
          (re_sub toc_re [] y)))) as L4.
      pose proof (re_sub_length _ _ last_updated_re_shorter
        (re_sub next_re [] (re_sub toc_re [] y))) as L3.
      pose proof (re_sub_length _ _ next_re_shorter (re_sub toc_re [] y)) as L2.
      destruct (has_match toc_re y) eqn:M1.
      { pose proof (re_sub_shrinks _ _ toc_re_shorter _ M1). lia. }
      rewrite (re_sub_no_match _ _ _ M1) in *.
      destruct (has_match next_re y) eqn:M2.
      { pose proof (re_sub_shrinks _ _ next_re_shorter _ M2). lia. }
      rewrite (re_sub_no_match _ _ _ M2) in *.
      destruct (has_match last_updated_re y) eqn:M3.
      { pose proof (re_sub_shrinks _ _ last_updated_re_shorter _ M3). lia. }
      rewrite (re_sub_no_match _ _ _ M3) in *.
      destruct (has_match newlines_re y) eqn:M4.
      { pose proof (re_sub_shrinks _ _ newlines_re_shorter _ M4). lia. }
      rewrite (re_sub_no_match _ _ _ M4) in *.
      destruct (has_match comment_re y) eqn:M5.
      { pose proof (re_sub_shrinks _ _ comment_re_shorter _ M5). lia. }
      reflexivity.
    + rewrite <- Hfix at 1. rewrite clean_stripped. exact Hfix.
  - intros [Hn Hs]. unfold nothing_to_clean in Hn.
    repeat rewrite andb_true_iff in Hn. repeat rewrite negb_true_iff in Hn.
    destruct Hn as ((((M1 & M2) & M3) & M4) & M5).
    unfold _clean_markdown_content, remove_toc, remove_next,
      remove_last_updated, collapse_newlines, remove_comments.
    rewrite (re_sub_no_match _ _ _ M1), (re_sub_no_match _ _ _ M2),
      (re_sub_no_match _ _ _ M3), (re_sub_no_match _ _ _ M4),
      (re_sub_no_match _ _ _ M5).
    exact Hs.
Qed.

(** C1 (as stated) fails: removing the inner comment of
    [<!<!--a-->--b-->] leaves [<!--b-->], which a second pass removes. *)
Lemma clean_not_idempotent :
  _clean_markdown_content (utf8 "<!<!--a-->--b-->") = utf8 "<!--b-->"
  /\ _clean_markdown_content
       (_clean_markdown_content (utf8 "<!<!--a-->--b-->")) = []
  /\ str_eqb
       (_clean_markdown_content
          (_clean_markdown_content (utf8 "<!<!--a-->--b-->")))
       (_clean_markdown_content (utf8 "<!<!--a-->--b-->")) = false.
Proof. repeat split; vm_compute; reflexivity. Qed.

(** C2: the comment is removed after the newlines were collapsed, so the
    two blank lines around it meet: four newlines in a row stay in the
    output. *)
Lemma clean_leaves_newline_run :
  _clean_markdown_content
    (utf8 "a" ++ [nl; nl] ++ utf8 "<!--x-->" ++ [nl; nl] ++ utf8 "b")
  = utf8 "a" ++ [nl; nl; nl; nl] ++ utf8 "b"
  /\ has_match newlines_re
       (_clean_markdown_content
          (utf8 "a" ++ [nl; nl] ++ utf8 "<!--x-->" ++ [nl; nl] ++ utf8 "b"))
     = true.
Proof. split; vm_compute; reflexivity. Qed.

(** ** Patterns that remove the rest of a line *)

Lemma next_re_line_tail : next_re = line_tail_re (utf8 "**Next:**").
Proof. reflexivity. Qed.

Lemma last_updated_re_line_tail : last_updated_re = line_tail_re footer_marker.
Proof. reflexivity. Qed.

Lemma sub_at_0_cons r repl c s :
  sub_at r repl 0 (c :: s)
  = match match_len r (c :: s) with
    | Some (S n) => repl ++ sub_at r repl n s
    | Some O => repl ++ c :: sub_at r repl 0 s
    | None => c :: sub_at r repl 0 s
    end.
Proof. reflexivity. Qed.

Lemma sub_at_skip r repl a : forall t,
  sub_at r repl (length a) (a ++ t) = sub_at r repl 0 t.
Proof.
  induction a as [|c a IH]; intros t; simpl.
  - destruct t; reflexivity.
  - apply IH.
Qed.

Lemma line_end_ahead tail :
  at_line_end tail ->
  rmatch (Look (Or (Chars [nl]) EndZ)) (fun rest => Some rest) tail = Some tail.
Proof.
  intros [-> | [t ->]]; reflexivity.
Qed.

Lemma no_line_end_ahead c s :
  c <> nl ->
  rmatch (Look (Or (Chars [nl]) EndZ)) (fun rest => Some rest) (c :: s) = None.
Proof.
  intros Hc. cbn [rmatch drop_prefix].
  destruct (char_eqb nl c) eqn:E; [|reflexivity].
  apply char_eqb_eq in E. congruence.
Qed.

Lemma lazy_star_now ok k s v : k s = Some v -> lazy_star ok k s = Some v.
Proof. destruct s; simpl; intros ->; reflexivity. Qed.

Lemma lazy_star_later ok k c s :
  k (c :: s) = None -> ok c = true ->
  lazy_star ok k (c :: s) = lazy_star ok k s.
Proof. simpl; intros -> ->; reflexivity. Qed.

Lemma rest_of_line rest tail :
  ~ In nl rest -> at_line_end tail ->
  rmatch (Then (AnyLazy false) (Look (Or (Chars [nl]) EndZ)))
         (fun rest => Some rest) (rest ++ tail) = Some tail.
Proof.
  intros Hrest Htail. change
    (lazy_star (fun c => false || negb (char_eqb c nl))
       (rmatch (Look (Or (Chars [nl]) EndZ)) (fun rest => Some rest))
       (rest ++ tail) = Some tail).
  induction rest as [|c rest IH].
  - apply lazy_star_now, line_end_ahead, Htail.
  - assert (Hc : c <> nl) by (intros ->; apply Hrest; left; reflexivity).
    simpl app. rewrite lazy_star_later.
    + apply IH. intros H; apply Hrest; right; exact H.
    + apply no_line_end_ahead, Hc.
    + destruct (char_eqb c nl) eqn:E; [|reflexivity].
      apply char_eqb_eq in E. congruence.
Qed.

Lemma line_tail_match l rest tail :
  ~ In nl rest -> at_line_end tail ->
  match_len (line_tail_re l) (l ++ rest ++ tail)
  = Some (length l + length rest).
Proof.
  intros Hrest Htail. unfold match_len, line_tail_re.
  cbn [rmatch]. rewrite drop_prefix_self.
  change (lazy_star _ _ (rest ++ tail)) with
    (rmatch (Then (AnyLazy false) (Look (Or (Chars [nl]) EndZ)))
            (fun rest => Some rest) (rest ++ tail)).
  rewrite (rest_of_line _ _ Hrest Htail).
  rewrite !length_app. f_equal. lia.
Qed.

Lemma line_tail_no_match l s :
  (forall b, s <> l ++ b) -> match_len (line_tail_re l) s = None.
Proof.
  intros H. unfold match_len, line_tail_re. cbn [rmatch].
  destruct (drop_prefix l s) as [b|] eqn:E; [|reflexivity].
  apply drop_prefix_app in E. exfalso. exact (H b E).
Qed.

(** Where the first occurrence of the literal [l] is after [body], the
    substitution removes [l] and the rest of its line: the text before it
    stays, and the scan goes on from the end of that line. *)
Lemma line_tail_sub l body rest tail :
  l <> [] -> ~ In nl rest -> at_line_end tail ->
  (forall a b, body ++ l ++ rest ++ tail = a ++ l ++ b ->
               length body <= length a) ->
  re_sub (line_tail_re l) [] (body ++ l ++ rest ++ tail)
  = body ++ re_sub (line_tail_re l) [] tail.
Proof.
  intros Hl Hrest Htail. unfold re_sub.
  induction body as [|c body IH]; intros Hfirst.
  - destruct l as [|c0 l']; [congruence|].
    pose proof (line_tail_match (c0 :: l') _ _ Hrest Htail) as Hm.
    cbn [app length Nat.add] in *. rewrite sub_at_0_cons, Hm.
    replace (length l' + length rest) with (length (l' ++ rest))
      by apply length_app.
    rewrite app_assoc. cbn [app]. apply sub_at_skip.
  - cbn [app]. rewrite sub_at_0_cons, line_tail_no_match.
    + f_equal. apply IH. intros a b Hab.
      specialize (Hfirst (c :: a) b). simpl in Hfirst.
      rewrite Hab in Hfirst. specialize (Hfirst eq_refl). lia.
    + intros b Hb. specialize (Hfirst [] b). simpl in Hfirst.
      specialize (Hfirst Hb). lia.
Qed.


Lemma occurs_before_false l n : forall s a b,
  occurs_before l n s = false -> s = a ++ l ++ b -> n <= length a.
Proof.
  induction n as [|n IH]; intros s a b H Hs; [lia|].
  simpl in H. destruct (drop_prefix l s) eqn:E; [discriminate|].
  destruct a as [|c a].
  - subst s. simpl in E. rewrite drop_prefix_self in E. discriminate.
  - subst s. simpl in *. specialize (IH _ a b H eq_refl). lia.
Qed.

Lemma forallb_not_nl rest :
  forallb (fun c => negb (char_eqb c nl)) rest = true -> ~ In nl rest.
Proof.
  intros H Hin. rewrite forallb_forall in H. specialize (H _ Hin).
  unfold char_eqb in H. rewrite N.eqb_refl in H. discriminate.
Qed.



(** ** Occurrences and lines *)

Lemma contains_eq a s :
  contains a s
  = match drop_prefix a s with
    | Some _ => true
    | None => match s with [] => false | _ :: s' => contains a s' end
    end.
Proof. destruct s; reflexivity. Qed.

Lemma contains_occurs a s : contains a s = true <-> occurs a s.
Proof.
  split.
  - induction s as [|c s IH]; rewrite contains_eq;
      destruct (drop_prefix a _) as [t|] eqn:E; try discriminate.
    + intros _. apply drop_prefix_app in E. exists [], t. exact E.
    + intros _. apply drop_prefix_app in E. exists [], t. exact E.
    + intros H. destruct (IH H) as (pre & post & ->).
      exists (c :: pre), post. reflexivity.
  - intros (pre & post & ->). induction pre as [|c pre IH].
    + rewrite contains_eq. simpl. rewrite drop_prefix_self. reflexivity.
    + rewrite contains_eq. simpl app.
      destruct (drop_prefix a _); [reflexivity | exact IH].
Qed.

Lemma In_concat_occurs (a : str) parts : In a parts -> occurs a (concat parts).
Proof.
  intros H. apply in_split in H. destruct H as (l1 & l2 & ->).
  rewrite concat_app. simpl. exists (concat l1), (concat l2). reflexivity.
Qed.

Lemma no_nl_spec b : no_nl b = true -> ~ In nl b.
Proof. apply forallb_not_nl. Qed.

Lemma app_nl_tail (b pre m : str) :
  b ++ [nl] = pre ++ m -> m <> [] -> In nl m.
Proof.
  intros H Hm. destruct (exists_last Hm) as (m' & x & ->).
  rewrite app_assoc in H. apply app_inj_tail in H. destruct H as [_ <-].
  apply in_or_app. right. left. reflexivity.
Qed.

(** A line that occurs in a text of lines is the end of one of them. *)
Lemma occurs_unlines s : forall bodies,
  ~ In nl s -> Forall (fun b => ~ In nl b) bodies ->
  occurs (s ++ [nl]) (unlines bodies) ->
  exists b p, In b bodies /\ b = p ++ s.
Proof.
  intros bodies Hs. induction bodies as [|b L IH]; intros Hb (pre & post & H).
  - destruct pre, s; discriminate.
  - inversion Hb as [|? ? Hnb HL]; subst. unfold unlines in H. simpl in H.
    fold (unlines L) in H. rewrite <- !app_assoc in H. simpl in H.
    rewrite app_assoc in H.
    apply app_eq_app in H. destruct H as (l & [[E1 E2] | [E1 E2]]).
    + destruct l as [|x l].
      * exists b, pre. split; [left; reflexivity|].
        rewrite app_nil_r in E1. exact E1.
      * inversion E2; subst x. exfalso. apply Hnb. rewrite E1.
        apply in_or_app. right. left. reflexivity.
    + destruct l as [|x l].
      * exists b, pre. split; [left; reflexivity|].
        rewrite app_nil_r in E1. symmetry. exact E1.
      * injection E2 as Ex El. subst x.
        assert (E3 : pre ++ s = (b ++ [nl]) ++ l)
          by (rewrite <- app_assoc; exact E1).
        apply app_eq_app in E3. destruct E3 as (m & [[E4 E5] | [E4 E5]]).
        -- destruct IH as (b' & p & Hin & Hp); [exact HL | |].
           ++ exists m, post. rewrite El, E5, <- !app_assoc. reflexivity.
           ++ exists b', p. split; [right; exact Hin | exact Hp].
        -- destruct (list_eq_dec N.eq_dec m []) as [-> | Hm].
           ++ simpl in E5. subst l.
              destruct IH as (b' & p & Hin & Hp); [exact HL | |].
              ** exists [], post. simpl. rewrite El, <- app_assoc.
                 reflexivity.
              ** exists b', p. split; [right; exact Hin | exact Hp].
           ++ exfalso. apply Hs. rewrite E5. apply in_or_app. left.
              eapply app_nl_tail; [exact E4 | exact Hm].
Qed.

(** A line of a text of lines occurs in it between two newlines, when it is
    not the first. *)
Lemma line_occurs first bodies b :
  In b bodies -> occurs (nl :: b ++ [nl]) (unlines (first :: bodies)).
Proof.
  intros H. apply in_split in H. destruct H as (l1 & l2 & ->).
  assert (Hne : first :: l1 <> []) by discriminate.
  destruct (exists_last Hne) as (l' & y & Hy).
  change (first :: l1 ++ b :: l2) with ((first :: l1) ++ b :: l2).
  rewrite Hy. unfold unlines.
  rewrite !map_app, !concat_app. simpl. rewrite app_nil_r.
  exists (concat (map (fun b0 => b0 ++ [nl]) l' ) ++ y),
         (concat (map (fun b0 => b0 ++ [nl]) l2)).
  simpl. rewrite <- !app_assoc. reflexivity.
Qed.

Lemma is_suffix_app p a : is_suffix a (p ++ a) = true.
Proof.
  unfold is_suffix. rewrite rev_app_distr, drop_prefix_self. reflexivity.
Qed.

(** ** Runs of newlines *)

Lemma run_len_le s : run_len s <= length s.
Proof.
  induction s as [|c s IH]; simpl; [lia|].
  destruct (char_eqb c nl); lia.
Qed.

Lemma run_len_repeat s : s = repeat nl (run_len s) ++ skipn (run_len s) s.
Proof.
  induction s as [|c s IH]; simpl; [reflexivity|].
  destruct (char_eqb c nl) eqn:E; [|reflexivity].
  apply char_eqb_eq in E. subst c. simpl. f_equal. exact IH.
Qed.

Lemma greedy_star_all s :
  greedy_star nl (fun rest => Some rest) s = Some (skipn (run_len s) s).
Proof.
  induction s as [|c s IH]; simpl; [reflexivity|].
  destruct (char_eqb c nl); [rewrite IH|]; reflexivity.
Qed.

(** [\n{3,}] matches where at least three newlines start, and takes them
    all. *)
Lemma match_len_newlines s :
  match_len newlines_re s
  = if 3 <=? run_len s then Some (run_len s) else None.
Proof.
  unfold match_len, newlines_re. cbn [rmatch repeat].
  destruct (drop_prefix [nl; nl; nl] s) as [s3|] eqn:E.
  - apply drop_prefix_app in E. subst s. rewrite greedy_star_all.
    cbn [app run_len]. unfold char_eqb. rewrite N.eqb_refl.
    cbn [Nat.leb]. f_equal. cbn [length].
    rewrite length_skipn. pose proof (run_len_le s3). lia.
  - destruct (3 <=? run_len s) eqn:L; [|reflexivity].
    apply Nat.leb_le in L. exfalso.
    pose proof (run_len_repeat s) as H.
    destruct (run_len s) as [|[|[|n]]]; try lia.
    rewrite H in E.
    change (repeat nl (S (S (S n))) ++ skipn (S (S (S n))) s)
      with ([nl; nl; nl] ++ (repeat nl n ++ skipn (S (S (S n))) s)) in E.
    rewrite drop_prefix_self in E. discriminate.
Qed.

Lemma run_len_cons_nl s : run_len (nl :: s) = S (run_len s).
Proof. reflexivity. Qed.

Lemma run_len_cons_other c s : char_eqb c nl = false -> run_len (c :: s) = 0.
Proof. intros H. cbn [run_len]. rewrite H. reflexivity. Qed.

Lemma has_match_newlines_cons c t :
  has_match newlines_re (c :: t)
  = (3 <=? run_len (c :: t)) || has_match newlines_re t.
Proof.
  cbn [has_match]. rewrite match_len_newlines.
  destruct (3 <=? run_len (c :: t)); reflexivity.
Qed.

(** The collapse leaves no run of three newlines, whether it starts at the
    head of the text or after the newlines the text starts with. *)
Lemma collapse_invariant s :
  (has_match newlines_re (sub_at newlines_re [nl; nl] 0 s) = false
   /\ run_len (sub_at newlines_re [nl; nl] 0 s) = Nat.min (run_len s) 2)
  /\ (has_match newlines_re (sub_at newlines_re [nl; nl] (run_len s) s) = false
      /\ run_len (sub_at newlines_re [nl; nl] (run_len s) s) = 0).
Proof.
  induction s as [|c s IH].
  - vm_compute. auto.
  - destruct IH as [[A1 A2] [B1 B2]].
    assert (HA : has_match newlines_re (sub_at newlines_re [nl; nl] 0 (c :: s))
                 = false
                 /\ run_len (sub_at newlines_re [nl; nl] 0 (c :: s))
                    = Nat.min (run_len (c :: s)) 2).
    { rewrite sub_at_0_cons, match_len_newlines.
      destruct (char_eqb c nl) eqn:E.
      - apply char_eqb_eq in E. subst c. rewrite run_len_cons_nl.
        destruct (3 <=? S (run_len s)) eqn:L.
        + apply Nat.leb_le in L. cbn [app].
          rewrite !has_match_newlines_cons, !run_len_cons_nl, B1, B2.
          split; [reflexivity | lia].
        + apply Nat.leb_gt in L.
          rewrite has_match_newlines_cons, !run_len_cons_nl, A1, A2.
          split; [|lia].
          replace (3 <=? S (Nat.min (run_len s) 2)) with false; [reflexivity|].
          symmetry. apply Nat.leb_gt. lia.
      - rewrite (run_len_cons_other _ _ E). cbn [Nat.leb].
        rewrite has_match_newlines_cons, (run_len_cons_other _ _ E), A1.
        split; reflexivity. }
    split; [exact HA|].
    destruct (char_eqb c nl) eqn:E.
    + apply char_eqb_eq in E. subst c. rewrite run_len_cons_nl.
      cbn [sub_at]. auto.
    + rewrite (run_len_cons_other _ _ E) in *. exact HA.
Qed.

Lemma collapse_leaves_no_run s :
  has_match newlines_re (collapse_newlines s) = false.
Proof. apply collapse_invariant. Qed.

Lemma no_run_contains t :
  has_match newlines_re t = contains [nl; nl; nl] t.
Proof.
  induction t as [|c t IH]; [reflexivity|].
  rewrite has_match_newlines_cons, contains_eq, IH.
  pose proof (match_len_newlines (c :: t)) as H.
  unfold match_len, newlines_re in H. cbn [rmatch repeat] in H.
  destruct (drop_prefix [nl; nl; nl] (c :: t)) as [s3|].
  - rewrite greedy_star_all in H.
    destruct (3 <=? run_len (c :: t)); [reflexivity | discriminate].
  - destruct (3 <=? run_len (c :: t)); [discriminate | reflexivity].
Qed.

Lemma lstrip_suffix s : exists p, s = p ++ lstrip s.
Proof.
  induction s as [|c s [p IH]]; simpl; [exists []; reflexivity|].
  destruct (is_space c).
  - exists (c :: p). simpl. f_equal. exact IH.
  - exists []. reflexivity.
Qed.

Lemma rstrip_prefix s : exists q, s = rstrip s ++ q.
Proof.
  destruct (lstrip_suffix (rev s)) as [p H]. exists (rev p). unfold rstrip.
  rewrite <- rev_app_distr, <- H, rev_involutive. reflexivity.
Qed.

(** What occurs in a stripped text occurs in the text. *)
Lemma occurs_strip a t : occurs a (strip t) -> occurs a t.
Proof.
  intros (pre & post & H). unfold strip in H.
  destruct (lstrip_suffix t) as [p Hp].
  destruct (rstrip_prefix (lstrip t)) as [q Hq].
  exists (p ++ pre), (post ++ q).
  rewrite Hp at 1. rewrite Hq at 1. rewrite H, <- !app_assoc. reflexivity.
Qed.

(** Where the comment step has nothing to remove, the cleaned text holds no
    run of three newlines: the collapse does its work, and only a comment
    removed after it brings a run back. *)
Lemma clean_no_run_without_comment x :
  has_match comment_re
    (collapse_newlines (remove_last_updated (remove_next (remove_toc x))))
  = false ->
  contains [nl; nl; nl] (_clean_markdown_content x) = false.
Proof.
  intros H. unfold _clean_markdown_content, remove_comments.
  rewrite (re_sub_no_match _ _ _ H).
  destruct (contains _ (strip _)) eqn:E; [|reflexivity].
  apply contains_occurs, occurs_strip, contains_occurs in E.
  rewrite <- no_run_contains, collapse_leaves_no_run in E. discriminate.
Qed.

(** ** The navigation index *)

Lemma link_eqb_eq a b : link_eqb a b = true -> a = b.
Proof.
  destruct a as [[t1 p1] d1], b as [[t2 p2] d2]. simpl.
  rewrite !andb_true_iff, !str_eqb_eq. intros [[-> ->] ->]. reflexivity.
Qed.

Lemma link_line_body link : link_line link = link_body link ++ [nl].
Proof.
  destruct link as [[t p] d]. unfold link_line, link_body.
  rewrite <- !app_assoc. reflexivity.
Qed.

Lemma link_exists_iff docs link :
  link_exists docs link = true <->
  exists doc, In doc docs
              /\ path doc = replace (utf8 "docs/") [] (link_target link).
Proof.
  destruct link as [[t p] d]. unfold link_exists, link_target.
  rewrite existsb_exists. split; intros (doc & Hin & H); exists doc;
    (split; [exact Hin|]); apply str_eqb_eq; exact H.
Qed.

(** On the targets of the table, [replace("docs/", "")] takes the leading
    "docs/" away and nothing else. *)
Lemma table_targets link :
  In link all_links ->
  replace (utf8 "docs/") [] (link_target link)
  = without_docs_prefix (link_target link).
Proof.
  assert (H : forallb (fun l =>
                str_eqb (replace (utf8 "docs/") [] (link_target l))
                        (without_docs_prefix (link_target l)))
              all_links = true) by (vm_compute; reflexivity).
  rewrite forallb_forall in H. intros Hin. apply str_eqb_eq, H, Hin.
Qed.

Lemma in_all_links section link :
  In section sections -> In link (snd section) -> In link all_links.
Proof.
  intros Hs Hl. unfold all_links. apply in_flat_map. exists section. auto.
Qed.

Lemma header_text : unlines header_lines = index_title ++ index_summary.
Proof. vm_compute. reflexivity. Qed.

Lemma section_text docs section :
  concat (section_parts docs section) = unlines (section_lines docs section).
Proof.
  destruct section as [section_title links].
  unfold section_parts, section_lines, unlines. simpl.
  rewrite !map_app, !map_map. simpl. do 2 f_equal. f_equal.
  apply map_ext. intros l. apply link_line_body.
Qed.

Lemma sections_text docs secs :
  concat (flat_map (section_parts docs) secs)
  = unlines (flat_map (section_lines docs) secs).
Proof.
  induction secs as [|sec secs IH]; [reflexivity|].
  cbn [flat_map]. unfold unlines in *.
  rewrite concat_app, map_app, concat_app, IH. f_equal.
  apply section_text.
Qed.

Lemma unlines_app a b : unlines (a ++ b) = unlines a ++ unlines b.
Proof. unfold unlines. rewrite map_app, concat_app. reflexivity. Qed.

Lemma index_text self :
  _build_llms_txt_content self = unlines (index_lines self).
Proof.
  unfold _build_llms_txt_content, index_content_parts, index_lines.
  rewrite concat_app, unlines_app, header_text, sections_text.
  cbn [concat]. rewrite app_nil_r. reflexivity.
Qed.

Lemma index_lines_cases self b :
  In b (index_lines self) ->
  In b fixed_lines
  \/ exists link, In link all_links
                  /\ link_exists (doc_files self) link = true
                  /\ b = link_body link.
Proof.
  unfold index_lines, fixed_lines. rewrite in_app_iff.
  intros [H | H]; [left; apply in_or_app; left; exact H|].
  apply in_flat_map in H. destruct H as (section & Hs & H).
  unfold section_lines in H. destruct H as [H | H].
  - left. apply in_or_app. right. apply in_or_app. left.
    subst b. apply in_map. exact Hs.
  - apply in_app_or in H. destruct H as [H | H].
    + right. apply in_map_iff in H. destruct H as (link & <- & H).
      apply filter_In in H. destruct H as [Hin Hex].
      exists link. repeat split; auto.
      eapply in_all_links; eauto.
    + left. apply in_or_app. right. apply in_or_app. right. exact H.
Qed.

Lemma index_lines_no_nl self : Forall (fun b => ~ In nl b) (index_lines self).
Proof.
  assert (F : forallb no_nl fixed_lines = true) by (vm_compute; reflexivity).
  assert (L : forallb (fun l => no_nl (link_body l)) all_links = true)
    by (vm_compute; reflexivity).
  rewrite forallb_forall in F, L.
  apply Forall_forall. intros b Hb.
  destruct (index_lines_cases _ _ Hb) as [H | (link & Hin & _ & ->)];
    apply no_nl_spec; auto.
Qed.

(** A link line of the table ends no fixed line, and no other link line. *)
Lemma link_body_not_fixed link b :
  In link all_links -> In b fixed_lines -> is_suffix (link_body link) b = false.
Proof.
  assert (H : forallb (fun l =>
                forallb (fun b => negb (is_suffix (link_body l) b))
                        fixed_lines) all_links = true)
    by (vm_compute; reflexivity).
  rewrite forallb_forall in H. intros Hl Hb.
  specialize (H _ Hl). rewrite forallb_forall in H.
  apply negb_true_iff, H, Hb.
Qed.

Lemma link_body_suffix_same link link' :
  In link all_links -> In link' all_links ->
  is_suffix (link_body link) (link_body link') = true -> link = link'.
Proof.
  assert (H : forallb (fun l =>
                forallb (fun l' =>
                  negb (is_suffix (link_body l) (link_body l'))
                  || link_eqb l l') all_links) all_links = true)
    by (vm_compute; reflexivity).
  rewrite forallb_forall in H. intros Hl Hl' Hs.
  specialize (H _ Hl). rewrite forallb_forall in H. specialize (H _ Hl').
  rewrite Hs in H. simpl in H. apply link_eqb_eq, H.
Qed.

(** A link line of the table occurs in the index only when it was
    emitted. *)
Lemma link_line_occurs_emitted self link :
  In link all_links ->
  occurs (link_line link) (_build_llms_txt_content self) ->
  link_exists (doc_files self) link = true.
Proof.
  intros Hl Hocc. rewrite link_line_body, index_text in Hocc.
  apply occurs_unlines in Hocc.
  - destruct Hocc as (b & p & Hb & Hp).
    destruct (index_lines_cases _ _ Hb) as [Hf | (link' & Hl' & Hex & Hb')].
    + pose proof (link_body_not_fixed _ _ Hl Hf) as Hn.
      rewrite Hp, is_suffix_app in Hn. discriminate.
    + assert (link = link') as ->.
      { apply link_body_suffix_same; auto.
        rewrite <- Hb', Hp. apply is_suffix_app. }
      exact Hex.
  - apply no_nl_spec.
    assert (L : forallb (fun l => no_nl (link_body l)) all_links = true)
      by (vm_compute; reflexivity).
    rewrite forallb_forall in L. apply L, Hl.
  - apply index_lines_no_nl.
Qed.

Lemma link_line_emitted_occurs self section link :
  In section sections -> In link (snd section) ->
  link_exists (doc_files self) link = true ->
  occurs (link_line link) (_build_llms_txt_content self).
Proof.
  intros Hs Hl Hex. apply In_concat_occurs.
  unfold index_content_parts. apply in_or_app. right.
  apply in_flat_map. exists section. split; [exact Hs|].
  destruct section as [section_title links]. simpl in *.
  right. apply in_or_app. left. apply in_map, filter_In. auto.
Qed.

(** C3: a link line of the sections table is in the index exactly when a
    loaded record has the link's target, less its leading "docs/", as its
    path. *)
Theorem index_link_iff_loaded (self : LLMsTxtGenerator)
    (section : str * list (str * str * str)) (link : str * str * str) :
  In section sections -> In link (snd section) ->
  (contains (link_line link) (_build_llms_txt_content self) = true <->
   exists doc, In doc (doc_files self)
               /\ path doc = without_docs_prefix (link_target link)).
Proof.
  intros Hs Hl. pose proof (in_all_links _ _ Hs Hl) as Hall.
  rewrite contains_occurs, <- (table_targets _ Hall), <- link_exists_iff.
  split.
  - apply link_line_occurs_emitted, Hall.
  - apply link_line_emitted_occurs with (section := section); auto.
Qed.

(** C3 for the link to the guide, in the index of two loaded pages. *)
Lemma index_link_iff_loaded_getting_started :
  contains (link_line getting_started_link) (_build_llms_txt_content two_pages)
  = true <->
  exists doc, In doc (doc_files two_pages)
              /\ path doc = without_docs_prefix (link_target getting_started_link).
Proof.
  apply (index_link_iff_loaded two_pages getting_started_section
           getting_started_link); left; reflexivity.
Defined.

(** ** The section headers *)

Lemma header_lines_first :
  header_lines = utf8 "# Flutter App Shell" :: tl header_lines.
Proof. vm_compute. reflexivity. Qed.

(** Every section header is a line of the index, whatever was loaded. *)
Lemma section_header_line self section :
  In section sections ->
  occurs (nl :: fst section ++ [nl]) (_build_llms_txt_content self).
Proof.
  intros Hs. rewrite index_text. unfold index_lines.
  rewrite header_lines_first. cbn [app]. apply line_occurs.
  apply in_or_app. right. apply in_flat_map.
  exists section. split; [exact Hs | left; reflexivity].
Qed.

Lemma sections_headers :
  map fst sections
  = [ utf8 "## Getting Started"; utf8 "## Architecture & Core Concepts";
      utf8 "## UI & Design Systems"; utf8 "## Implementation Guides";
      utf8 "## Optional" ].
Proof. vm_compute. reflexivity. Qed.

Lemma header_line self h :
  In h (map fst sections) ->
  contains (nl :: h ++ [nl]) (_build_llms_txt_content self) = true.
Proof.
  intros H. apply in_map_iff in H. destruct H as (section & <- & Hs).
  apply contains_occurs, section_header_line, Hs.
Qed.

(** C4: whatever records were loaded, none included, each of the five
    section headers is a line of the index. *)
Theorem index_has_all_section_headers (self : LLMsTxtGenerator) :
  let out := _build_llms_txt_content self in
  contains (nl :: utf8 "## Getting Started" ++ [nl]) out = true
  /\ contains (nl :: utf8 "## Architecture & Core Concepts" ++ [nl]) out = true
  /\ contains (nl :: utf8 "## UI & Design Systems" ++ [nl]) out = true
  /\ contains (nl :: utf8 "## Implementation Guides" ++ [nl]) out = true
  /\ contains (nl :: utf8 "## Optional" ++ [nl]) out = true.
Proof.
  intros out. subst out.
  pose proof (header_line self) as H. rewrite sections_headers in H.
  split; [apply H; left; reflexivity|].
  split; [apply H; right; left; reflexivity|].
  split; [apply H; do 2 right; left; reflexivity|].
  split; [apply H; do 3 right; left; reflexivity|].
  apply H; do 4 right; left; reflexivity.
Qed.

(** With nothing loaded a section is its header and a blank line. *)
Lemma index_of_nothing :
  _build_llms_txt_content (init (utf8 "docs") (utf8 "."))
  = index_title ++ index_summary
    ++ unlines [ utf8 "## Getting Started"; [];
                 utf8 "## Architecture & Core Concepts"; [];
                 utf8 "## UI & Design Systems"; [];
                 utf8 "## Implementation Guides"; [];
                 utf8 "## Optional"; [] ].
Proof. vm_compute. reflexivity. Qed.

(** ** The index depends on the loaded paths only *)

Lemma link_exists_paths docs link :
  link_exists docs link = true <->
  In (replace (utf8 "docs/") [] (link_target link)) (map path docs).
Proof.
  rewrite link_exists_iff, in_map_iff.
  split; intros (doc & H1 & H2); exists doc; auto.
Qed.

Lemma link_exists_same_paths docs1 docs2 link :
  (forall p, In p (map path docs1) <-> In p (map path docs2)) ->
  link_exists docs1 link = link_exists docs2 link.
Proof.
  intros H. pose proof (link_exists_paths docs1 link) as H1.
  pose proof (link_exists_paths docs2 link) as H2.
  rewrite H in H1.
  destruct (link_exists docs1 link), (link_exists docs2 link);
    try reflexivity.
  - symmetry. apply H2, H1. reflexivity.
  - apply H1, H2. reflexivity.
Qed.

(** C10: two generators whose records have the same set of paths build the
    same index, whatever the titles, descriptions, contents, priorities,
    order and number of the records. *)
Theorem index_depends_on_paths_only (a b : LLMsTxtGenerator) :
  (forall p, In p (map path (doc_files a)) <-> In p (map path (doc_files b))) ->
  _build_llms_txt_content a = _build_llms_txt_content b.
Proof.
  intros H. unfold _build_llms_txt_content, index_content_parts.
  do 2 f_equal. apply flat_map_ext. intros [section_title links].
  unfold section_parts. do 3 f_equal.
  apply filter_ext. intros link. apply link_exists_same_paths, H.
Qed.

(** C10 for [two_pages] and [two_pages_again]: the same paths, in other
    records. *)
Lemma index_of_two_pages_again :
  _build_llms_txt_content two_pages = _build_llms_txt_content two_pages_again.
Proof.
  apply index_depends_on_paths_only.
  intros p. cbn [two_pages two_pages_again doc_files map record_of path In].
  tauto.
Defined.

(** ** Parsing *)

Lemma parse_entry_spec dir docs w entry :
  fst (parse_entry dir (docs, w) entry) = docs ++ entry_docs (files w) dir entry
  /\ files (snd (parse_entry dir (docs, w) entry)) = files w
  /\ console (snd (parse_entry dir (docs, w) entry))
     = console w ++ entry_log (files w) dir entry.
Proof.
  destruct entry as [relative_path config].
  unfold parse_entry, exists_, _read_file, entry_docs, entry_log, print.
  cbn [fst snd].
  destruct (files w (path_join dir relative_path)) as [[e | text] |];
    cbn [fst snd files console entry_content];
    rewrite <- ?app_assoc, ?app_nil_r; auto.
Qed.

Lemma parse_loop_spec dir cfg : forall docs w,
  fst (fold_left (parse_entry dir) cfg (docs, w))
  = docs ++ flat_map (entry_docs (files w) dir) cfg
  /\ files (snd (fold_left (parse_entry dir) cfg (docs, w))) = files w
  /\ console (snd (fold_left (parse_entry dir) cfg (docs, w)))
     = console w ++ flat_map (entry_log (files w) dir) cfg.
Proof.
  induction cfg as [|entry cfg IH]; intros docs w.
  - cbn [fold_left flat_map fst snd]. rewrite !app_nil_r. auto.
  - cbn [fold_left flat_map].
    destruct (parse_entry_spec dir docs w entry) as (H1 & H2 & H3).
    destruct (parse_entry dir (docs, w) entry) as [docs1 w1].
    cbn [fst snd] in H1, H2, H3.
    destruct (IH docs1 w1) as (I1 & I2 & I3).
    rewrite I1, I2, I3, H1, H2, H3, <- !app_assoc. auto.
Qed.

Lemma parse_spec self w :
  doc_files (fst (_parse_documentation self w))
  = sort_by_priority (doc_files self ++ loaded (files w) (docs_dir self))
  /\ docs_dir (fst (_parse_documentation self w)) = docs_dir self
  /\ output_dir (fst (_parse_documentation self w)) = output_dir self
  /\ files (snd (_parse_documentation self w)) = files w
  /\ console (snd (_parse_documentation self w))
     = console w ++ utf8 "📚 Parsing documentation files..."
         :: flat_map (entry_log (files w) (docs_dir self)) file_config.
Proof.
  unfold _parse_documentation, loaded.
  destruct (parse_loop_spec (docs_dir self) file_config (doc_files self)
              (print (utf8 "📚 Parsing documentation files...") w))
    as (H1 & H2 & H3).
  destruct (fold_left _ _ _) as [docs w1].
  cbn [fst snd doc_files docs_dir output_dir] in *.
  unfold print in *. cbn [files console] in *.
  rewrite H1, H2, H3, <- app_assoc. auto.
Qed.

(** ** Sorting *)

Lemma insert_In x l z :
  In z (insert_by_priority x l) <-> z = x \/ In z l.
Proof.
  induction l as [|y l IH]; simpl.
  - intuition.
  - destruct (priority x <=? priority y)%Z; simpl; rewrite ?IH; intuition.
Qed.

Lemma sort_In l z : In z (sort_by_priority l) <-> In z l.
Proof.
  induction l as [|x l IH]; simpl; [tauto|].
  rewrite insert_In, IH. intuition.
Qed.

Lemma sort_perm l : Permutation l (sort_by_priority l).
Proof.
  induction l as [|x l IH]; simpl; [constructor|].
  apply perm_trans with (x :: sort_by_priority l); [constructor; exact IH|].
  clear IH. generalize (sort_by_priority l). intros s.
  induction s as [|y s IH]; simpl; [constructor; constructor|].
  destruct (priority x <=? priority y)%Z; [apply Permutation_refl|].
  apply perm_trans with (y :: x :: s); [constructor|].
  constructor. exact IH.
Qed.

Lemma insert_sorted x l :
  StronglySorted before l -> Forall (table_order x) l ->
  StronglySorted before (insert_by_priority x l).
Proof.
  induction l as [|y l IH]; intros Hs Hx; simpl.
  - constructor; constructor.
  - inversion Hs as [|? ? Hs' Hy]; subst.
    inversion Hx as [|? ? Hxy Hxl]; subst.
    destruct (priority x <=? priority y)%Z eqn:E.
    + apply Z.leb_le in E. constructor; [exact Hs|].
      constructor.
      * unfold before, table_order in *. lia.
      * rewrite Forall_forall in *. intros z Hz.
        specialize (Hy _ Hz). specialize (Hxl _ Hz).
        unfold before, table_order in *. lia.
    + apply Z.leb_gt in E. constructor; [apply IH; assumption|].
      apply Forall_forall. intros z Hz. apply insert_In in Hz.
      destruct Hz as [-> | Hz].
      * left. exact E.
      * rewrite Forall_forall in Hy. apply Hy, Hz.
Qed.

(** Sorting a list that is in the order of the table puts it in order of
    priority and keeps the order of the table within a priority. *)
Lemma sort_sorted l :
  StronglySorted table_order l -> StronglySorted before (sort_by_priority l).
Proof.
  induction l as [|x l IH]; intros Hs; simpl; [constructor|].
  inversion Hs as [|? ? Hs' Hx]; subst.
  apply insert_sorted; [apply IH, Hs'|].
  rewrite Forall_forall in *. intros z Hz. apply Hx, sort_In, Hz.
Qed.

Lemma entry_docs_path fs dir entry d :
  In d (entry_docs fs dir entry) -> path d = fst entry.
Proof.
  unfold entry_docs. destruct (fs _); simpl; [|tauto].
  intros [<- | []]. reflexivity.
Qed.

Lemma loaded_in_table_order_of fs dir cfg :
  StronglySorted (fun p q => config_index p < config_index q) (map fst cfg) ->
  StronglySorted table_order (flat_map (entry_docs fs dir) cfg).
Proof.
  induction cfg as [|entry cfg IH]; intros Hs; cbn [flat_map map] in *.
  - constructor.
  - inversion Hs as [|? ? Hs' He]; subst. specialize (IH Hs').
    unfold entry_docs at 1. destruct (fs _); [|exact IH].
    cbn [app]. constructor; [exact IH|].
    apply Forall_forall. intros d Hd. apply in_flat_map in Hd.
    destruct Hd as (entry' & Hin & Hd). apply entry_docs_path in Hd.
    unfold table_order. rewrite Hd. cbn [path entry_record].
    rewrite Forall_forall in He. apply He, in_map, Hin.
Qed.

Lemma increasing_sorted (A : Type) (f : A -> nat) (l : list A) :
  increasing (map f l) = true -> StronglySorted (fun a b => f a < f b) l.
Proof.
  induction l as [|x l IH]; cbn [map increasing]; intros H; [constructor|].
  apply andb_true_iff in H. destruct H as [H1 H2].
  constructor; [apply IH, H2|].
  rewrite forallb_forall in H1. apply Forall_forall. intros y Hy.
  apply Nat.ltb_lt, H1, in_map, Hy.
Qed.

Lemma config_paths_in_order :
  StronglySorted (fun p q => config_index p < config_index q)
                 (map fst file_config).
Proof. apply increasing_sorted. vm_compute. reflexivity. Qed.

Lemma loaded_in_table_order fs dir : StronglySorted table_order (loaded fs dir).
Proof. apply loaded_in_table_order_of, config_paths_in_order. Qed.

(** ** The run *)

Lemma parse_fst self w : fst (_parse_documentation self w) = parsed self (files w).
Proof.
  destruct (parse_spec self w) as (H1 & H2 & H3 & _).
  destruct (fst (_parse_documentation self w)) as [d o l].
  cbn [doc_files docs_dir output_dir] in *. subst. reflexivity.
Qed.

Lemma run_spec self w :
  fst (run self w) = parsed self (files w)
  /\ (forall q,
        files (snd (run self w)) q
        = if str_eqb q (path_join (output_dir self) (utf8 "llms-full.txt"))
          then Some (Text (full_content (parsed self (files w))))
          else if str_eqb q (path_join (output_dir self) (utf8 "llms.txt"))
          then Some (Text (_build_llms_txt_content (parsed self (files w))))
          else files w q)
  /\ console (snd (run self w))
     = console w
       ++ [ utf8 "🚀 Generating llms.txt files for Flutter App Shell...";
            utf8 "📚 Parsing documentation files..." ]
       ++ flat_map (entry_log (files w) (docs_dir self)) file_config
       ++ closing_lines (output_dir self).
Proof.
  unfold run.
  set (w0 := print (utf8 "🚀 Generating llms.txt files for Flutter App Shell...") w).
  pose proof (parse_fst self w0) as Hg.
  destruct (parse_spec self w0) as (_ & _ & _ & Hf & Hc).
  destruct (_parse_documentation self w0) as [g w1].
  cbn [fst snd] in *. subst g.
  unfold _generate_llms_full_txt, _generate_llms_txt, write_file, print,
    closing_lines.
  cbn [fst snd files console output_dir parsed].
  rewrite Hf, Hc. unfold w0, print. cbn [files console].
  repeat split; auto.
  rewrite <- !app_assoc. reflexivity.
Qed.

Lemma run_doc_files dir out w :
  doc_files (fst (run (init dir out) w)) = sort_by_priority (loaded (files w) dir).
Proof.
  destruct (run_spec (init dir out) w) as (-> & _). reflexivity.
Qed.

(** ** The full dump *)

Lemma doc_parts_stripped doc :
  strip (content doc) = content doc ->
  doc_parts doc = if has_content doc then doc_section doc else [].
Proof.
  unfold doc_parts, has_content, doc_section. intros ->.
  destruct (content doc); reflexivity.
Qed.

Lemma full_parts_of_stripped docs :
  Forall (fun doc => strip (content doc) = content doc) docs ->
  flat_map doc_parts docs = flat_map doc_section (filter has_content docs).
Proof.
  induction 1 as [|doc docs Hd _ IH]; [reflexivity|].
  cbn [flat_map filter]. rewrite (doc_parts_stripped _ Hd), IH.
  destruct (has_content doc); reflexivity.
Qed.

Lemma entry_content_stripped f : strip (entry_content f) = entry_content f.
Proof. destruct f; [reflexivity | apply clean_stripped]. Qed.

Lemma loaded_In fs dir d :
  In d (loaded fs dir) <->
  exists entry f, In entry file_config
                  /\ fs (path_join dir (fst entry)) = Some f
                  /\ d = entry_record entry (entry_content f).
Proof.
  unfold loaded. rewrite in_flat_map. unfold entry_docs. split.
  - intros (entry & Hin & Hd). destruct (fs _) as [f|] eqn:E; [|destruct Hd].
    destruct Hd as [<- | []]. exists entry, f. auto.
  - intros (entry & f & Hin & Hf & ->). exists entry. rewrite Hf.
    split; [exact Hin | left; reflexivity].
Qed.

Lemma loaded_stripped fs dir :
  Forall (fun doc => strip (content doc) = content doc)
         (sort_by_priority (loaded fs dir)).
Proof.
  apply Forall_forall. intros d Hd. apply sort_In, loaded_In in Hd.
  destruct Hd as (entry & f & _ & _ & ->). apply entry_content_stripped.
Qed.

Lemma StronglySorted_filter (A : Type) (R : A -> A -> Prop) (p : A -> bool) l :
  StronglySorted R l -> StronglySorted R (filter p l).
Proof.
  induction 1 as [|x l Hs IH Hx]; cbn [filter]; [constructor|].
  destruct (p x); [|exact IH]. constructor; [exact IH|].
  rewrite Forall_forall in *. intros y Hy. apply filter_In in Hy.
  apply Hx, Hy.
Qed.

(** ** Files that cannot be read, files that are not there *)

Lemma run_records dir out w d :
  In d (doc_files (fst (run (init dir out) w))) <->
  exists entry f, In entry file_config
                  /\ files w (path_join dir (fst entry)) = Some f
                  /\ d = entry_record entry (entry_content f).
Proof. rewrite run_doc_files, sort_In. apply loaded_In. Qed.

Lemma output_paths_differ out :
  str_eqb (path_join out (utf8 "llms.txt"))
          (path_join out (utf8 "llms-full.txt")) = false.
Proof.
  apply str_eqb_neq. unfold path_join.
  destruct (str_eqb out (utf8 ".")); [discriminate|].
  intros H. apply app_inv_head in H. discriminate.
Qed.

Lemma run_outputs dir out w :
  files (snd (run (init dir out) w)) (path_join out (utf8 "llms.txt"))
  = Some (Text (_build_llms_txt_content (fst (run (init dir out) w))))
  /\ files (snd (run (init dir out) w)) (path_join out (utf8 "llms-full.txt"))
     = Some (Text (full_content (fst (run (init dir out) w)))).
Proof.
  destruct (run_spec (init dir out) w) as (Hg & Hf & _).
  rewrite !Hf, Hg. cbn [output_dir init].
  rewrite output_paths_differ, !str_eqb_refl. auto.
Qed.

(** C6: when a configured file is there and reading it raises, the run
    prints the warning, makes the record of that path with empty content,
    makes the record of every other configured file that is there, and
    writes both outputs. *)
Theorem unreadable_file_is_not_fatal (dir out : str) (w : world)
    (rel : str) (config : Config) (err : str) :
  In (rel, config) file_config ->
  files w (path_join dir rel) = Some (Unreadable err) ->
  let self := fst (run (init dir out) w) in
  let w' := snd (run (init dir out) w) in
  In (read_warning (path_join dir rel) err) (console w')
  /\ In {| path := rel; title := cfg_title config;
           description := cfg_description config;
           content := []; priority := cfg_priority config |}
        (doc_files self)
  /\ (forall rel' config' f,
        In (rel', config') file_config ->
        files w (path_join dir rel') = Some f ->
        In (entry_record (rel', config') (entry_content f)) (doc_files self))
  /\ files w' (path_join out (utf8 "llms.txt"))
     = Some (Text (_build_llms_txt_content self))
  /\ files w' (path_join out (utf8 "llms-full.txt"))
     = Some (Text (full_content self)).
Proof.
  intros Hin Hf self w'. subst self w'.
  split; [|split; [|split]].
  - destruct (run_spec (init dir out) w) as (_ & _ & ->).
    apply in_or_app. right. apply in_or_app. right.
    apply in_or_app. left. cbn [docs_dir init].
    apply in_flat_map. exists (rel, config). split; [exact Hin|].
    unfold entry_log. cbn [fst]. rewrite Hf. left. reflexivity.
  - apply run_records. exists (rel, config), (Unreadable err). auto.
  - intros rel' config' f Hin' Hf'. apply run_records.
    exists (rel', config'), f. auto.
  - apply run_outputs.
Qed.

Lemma no_record_no_link self link :
  In link all_links ->
  (forall doc, In doc (doc_files self) ->
               path doc <> without_docs_prefix (link_target link)) ->
  contains (link_line link) (_build_llms_txt_content self) = false.
Proof.
  intros Hl Hno.
  destruct (contains _ _) eqn:E; [|reflexivity].
  apply contains_occurs, (link_line_occurs_emitted _ _ Hl) in E.
  apply link_exists_iff in E. destruct E as (doc & Hin & Hp).
  rewrite (table_targets _ Hl) in Hp. exfalso. exact (Hno _ Hin Hp).
Qed.

(** C7: after a run every record is that of a configured path whose file
    was there; a configured path whose file was not there has no record,
    no link line in the index, and every part of the full dump is a fixed
    part or belongs to the section of a record of another path. *)
Theorem records_only_for_files_on_disk (dir out : str) (w : world) :
  let self := fst (run (init dir out) w) in
  (forall doc, In doc (doc_files self) ->
     exists config, In (path doc, config) file_config
                    /\ exists_ w (path_join dir (path doc)) = true)
  /\ (forall rel config,
        In (rel, config) file_config ->
        exists_ w (path_join dir rel) = false ->
        (forall doc, In doc (doc_files self) -> path doc <> rel)
        /\ (forall link, In link all_links ->
              without_docs_prefix (link_target link) = rel ->
              contains (link_line link) (_build_llms_txt_content self) = false)
        /\ (forall part, In part (full_content_parts self) ->
              part = full_title \/ part = full_overview
              \/ part = _build_quick_reference
              \/ exists doc, In doc (doc_files self) /\ path doc <> rel
                             /\ In part (doc_parts doc))).
Proof.
  intros self. subst self. split.
  - intros doc Hd. apply run_records in Hd.
    destruct Hd as ([rel config] & f & Hin & Hf & ->).
    exists config. cbn [path entry_record fst snd] in *.
    split; [exact Hin|]. unfold exists_. rewrite Hf. reflexivity.
  - intros rel config Hin Hmiss.
    assert (Hno : forall doc,
               In doc (doc_files (fst (run (init dir out) w))) ->
               path doc <> rel).
    { intros doc Hd Hp. apply run_records in Hd.
      destruct Hd as (entry & f & _ & Hf & ->).
      cbn [path entry_record] in Hp. subst rel.
      unfold exists_ in Hmiss. rewrite Hf in Hmiss. discriminate. }
    split; [exact Hno|]. split.
    + intros link Hl Ht. apply no_record_no_link; [exact Hl|].
      rewrite Ht. exact Hno.
    + intros part Hp. unfold full_content_parts in Hp.
      cbn [app In] in Hp.
      destruct Hp as [<- | [<- | Hp]];
        [left; reflexivity | right; left; reflexivity |].
      apply in_app_or in Hp.
      destruct Hp as [Hp | [<- | []]]; [|right; right; left; reflexivity].
      apply in_flat_map in Hp. destruct Hp as (doc & Hd & Hp).
      do 3 right. exists doc. auto.
Qed.

(** ** Two runs *)

Lemma flat_map_ext_in (A B : Type) (f g : A -> list B) l :
  (forall a, In a l -> f a = g a) -> flat_map f l = flat_map g l.
Proof.
  induction l as [|a l IH]; intros H; [reflexivity|].
  cbn [flat_map]. rewrite H, IH; [reflexivity | | left; reflexivity].
  intros b Hb. apply H. right. exact Hb.
Qed.

Lemma loaded_ext fs1 fs2 dir :
  (forall rel config, In (rel, config) file_config ->
                      fs1 (path_join dir rel) = fs2 (path_join dir rel)) ->
  loaded fs1 dir = loaded fs2 dir.
Proof.
  intros H. unfold loaded. apply flat_map_ext_in.
  intros [rel config] Hin. unfold entry_docs. cbn [fst].
  rewrite (H _ _ Hin). reflexivity.
Qed.

Lemma main_files w q :
  files (main w) q
  = if str_eqb q (utf8 "llms-full.txt")
    then Some (Text (full_content (main_generator (files w))))
    else if str_eqb q (utf8 "llms.txt")
    then Some (Text (_build_llms_txt_content (main_generator (files w))))
    else files w q.
Proof.
  unfold main.
  destruct (run_spec (init (utf8 "docs") (utf8 ".")) w) as (_ & Hf & _).
  apply Hf.
Qed.

Lemma main_generator_ext fs1 fs2 :
  (forall rel config, In (rel, config) file_config ->
     fs1 (path_join (utf8 "docs") rel) = fs2 (path_join (utf8 "docs") rel)) ->
  main_generator fs1 = main_generator fs2.
Proof.
  intros H. unfold main_generator, parsed. cbn [doc_files docs_dir init app].
  rewrite (loaded_ext _ _ _ H). reflexivity.
Qed.

(** [main] writes outside the configured paths. *)
Lemma main_keeps_docs w rel config :
  In (rel, config) file_config ->
  files (main w) (path_join (utf8 "docs") rel)
  = files w (path_join (utf8 "docs") rel).
Proof.
  assert (H : forallb (fun entry =>
                negb (str_eqb (path_join (utf8 "docs") (fst entry))
                              (utf8 "llms-full.txt"))
                && negb (str_eqb (path_join (utf8 "docs") (fst entry))
                                 (utf8 "llms.txt")))
              file_config = true) by (vm_compute; reflexivity).
  rewrite forallb_forall in H. intros Hin. specialize (H _ Hin).
  cbn [fst] in H. apply andb_true_iff in H. destruct H as [H1 H2].
  apply negb_true_iff in H1, H2. rewrite main_files, H1, H2. reflexivity.
Qed.

(** C8: two worlds with the same files at the configured paths of "docs"
    get the same [llms.txt] and the same [llms-full.txt] from [main]. *)
Theorem same_snapshot_same_outputs (w1 w2 : world) :
  (forall rel config, In (rel, config) file_config ->
     files w1 (path_join (utf8 "docs") rel)
     = files w2 (path_join (utf8 "docs") rel)) ->
  exists index full,
    files (main w1) (utf8 "llms.txt") = Some (Text index)
    /\ files (main w2) (utf8 "llms.txt") = Some (Text index)
    /\ files (main w1) (utf8 "llms-full.txt") = Some (Text full)
    /\ files (main w2) (utf8 "llms-full.txt") = Some (Text full).
Proof.
  intros H. rewrite !main_files, (main_generator_ext _ _ H).
  exists (_build_llms_txt_content (main_generator (files w2))),
         (full_content (main_generator (files w2))).
  repeat split; reflexivity.
Qed.

(** A second run on the world the first one left writes the same two
    files again. *)
Lemma second_run_same_outputs w :
  files (main (main w)) (utf8 "llms.txt") = files (main w) (utf8 "llms.txt")
  /\ files (main (main w)) (utf8 "llms-full.txt")
     = files (main w) (utf8 "llms-full.txt").
Proof.
  rewrite !main_files.
  rewrite (main_generator_ext (files (main w)) (files w) (main_keeps_docs w)).
  split; reflexivity.
Qed.

(** ** A small documentation directory *)

(** C6 in the sample world: the architecture page cannot be read. *)
Lemma unreadable_architecture_page :
  In (read_warning (path_join (utf8 "docs") (fst architecture_entry))
                   (utf8 "invalid start byte"))
     (console (snd (run (init (utf8 "docs") (utf8 ".")) sample_world)))
  /\ In {| path := fst architecture_entry;
           title := cfg_title (snd architecture_entry);
           description := cfg_description (snd architecture_entry);
           content := [];
           priority := cfg_priority (snd architecture_entry) |}
        (doc_files (fst (run (init (utf8 "docs") (utf8 ".")) sample_world))).
Proof.
  assert (Hin : In (fst architecture_entry, snd architecture_entry) file_config)
    by (vm_compute; do 2 right; left; reflexivity).
  assert (Hf : files sample_world
                 (path_join (utf8 "docs") (fst architecture_entry))
               = Some (Unreadable (utf8 "invalid start byte")))
    by (vm_compute; reflexivity).
  destruct (unreadable_file_is_not_fatal (utf8 "docs") (utf8 ".") sample_world
              (fst architecture_entry) (snd architecture_entry)
              (utf8 "invalid start byte") Hin Hf) as (A & B & _).
  split; [exact A | exact B].
Defined.

(** C7 in the sample world: the guide is not there, and the index has no
    link to it. *)
Lemma no_record_for_missing_guide :
  exists_ sample_world (utf8 "docs/getting-started.md") = false
  /\ contains (link_line getting_started_link)
       (_build_llms_txt_content
          (fst (run (init (utf8 "docs") (utf8 ".")) sample_world))) = false.
Proof.
  assert (Hin : In (fst getting_started_entry, snd getting_started_entry)
                   file_config)
    by (vm_compute; right; left; reflexivity).
  assert (Hm : exists_ sample_world
                 (path_join (utf8 "docs") (fst getting_started_entry)) = false)
    by (vm_compute; reflexivity).
  destruct (records_only_for_files_on_disk (utf8 "docs") (utf8 ".")
              sample_world) as [_ H].
  destruct (H _ _ Hin Hm) as (_ & B & _).
  split; [vm_compute; reflexivity|].
  apply B; [left; reflexivity | vm_compute; reflexivity].
Defined.

(** C8 for the sample world and the world a first run leaves. *)
Lemma two_runs_on_sample_world :
  exists index full,
    files (main sample_world) (utf8 "llms.txt") = Some (Text index)
    /\ files (main (main sample_world)) (utf8 "llms.txt") = Some (Text index)
    /\ files (main sample_world) (utf8 "llms-full.txt") = Some (Text full)
    /\ files (main (main sample_world)) (utf8 "llms-full.txt")
       = Some (Text full).
Proof.
  apply (same_snapshot_same_outputs sample_world (main sample_world)).
  intros rel config Hin. symmetry. apply main_keeps_docs with (config := config).
  exact Hin.
Defined.

(** * Further properties of the script *)

(** ** The cleaner only leaves text out *)

Lemma Subseq_refl s : Subseq s s.
Proof. induction s; constructor; assumption. Qed.

Lemma Subseq_nil_l s : Subseq [] s.
Proof. induction s; constructor; assumption. Qed.

Lemma Subseq_trans a b c : Subseq a b -> Subseq b c -> Subseq a c.
Proof.
  intros Hab Hbc. revert a Hab.
  induction Hbc as [|x b c Hbc IH|x b c Hbc IH]; intros a Hab.
  - exact Hab.
  - inversion Hab; subst.
    + apply Subseq_keep, IH. assumption.
    + apply Subseq_skip, IH. assumption.
  - apply Subseq_skip, IH, Hab.
Qed.

Lemma Subseq_length a b : Subseq a b -> length a <= length b.
Proof. induction 1; simpl; lia. Qed.

Lemma Subseq_In a b c : Subseq a b -> In c a -> In c b.
Proof.
  induction 1 as [|x a b H IH|x a b H IH]; simpl; intros Hin.
  - exact Hin.
  - destruct Hin as [-> | Hin]; [left; reflexivity | right; apply IH, Hin].
  - right. apply IH, Hin.
Qed.

Lemma Subseq_app_l p a : Subseq a (p ++ a).
Proof. induction p; simpl; [apply Subseq_refl | apply Subseq_skip; assumption]. Qed.

Lemma Subseq_app_r a q : Subseq a (a ++ q).
Proof.
  induction a; simpl; [apply Subseq_nil_l | apply Subseq_keep; assumption].
Qed.

Lemma strip_Subseq s : Subseq (strip s) s.
Proof.
  unfold strip. destruct (lstrip_suffix s) as [p Hp].
  destruct (rstrip_prefix (lstrip s)) as [q Hq].
  apply Subseq_trans with (lstrip s).
  - rewrite Hq at 2. apply Subseq_app_r.
  - rewrite Hp at 2. apply Subseq_app_l.
Qed.

(** A substitution by the empty string only leaves characters out. *)
Lemma sub_at_empty_Subseq r s : forall skip, Subseq (sub_at r [] skip s) s.
Proof.
  induction s as [|c s IH]; intros [|k]; cbn [sub_at].
  - destruct (match_len r []) as [[|n]|]; constructor.
  - constructor.
  - destruct (match_len r (c :: s)) as [[|n]|]; cbn [app].
    + apply Subseq_keep, IH.
    + apply Subseq_skip, IH.
    + apply Subseq_keep, IH.
  - apply Subseq_skip, IH.
Qed.

(** The collapse only leaves newlines out: of the newlines being passed
    over, any [j] could be kept. *)
Lemma collapse_Subseq s : forall skip j,
  skip <= run_len s -> j <= skip ->
  Subseq (repeat nl j ++ sub_at newlines_re [nl; nl] skip s) s.
Proof.
  induction s as [|c s IH]; intros k j Hk Hj.
  - cbn [run_len] in Hk. assert (k = 0) by lia. assert (j = 0) by lia.
    subst. vm_compute. constructor.
  - destruct k as [|k].
    + assert (j = 0) by lia. subst j. cbn [repeat app].
      rewrite sub_at_0_cons, match_len_newlines.
      destruct (3 <=? run_len (c :: s)) eqn:L.
      * apply Nat.leb_le in L.
        destruct (char_eqb c nl) eqn:E;
          [|rewrite (run_len_cons_other _ _ E) in L; lia].
        apply char_eqb_eq in E. subst c. rewrite run_len_cons_nl in *.
        cbn [app]. apply Subseq_keep.
        apply (IH (run_len s) 1); lia.
      * apply Subseq_keep. apply (IH 0 0); lia.
    + destruct (char_eqb c nl) eqn:E;
        [|rewrite (run_len_cons_other _ _ E) in Hk; lia].
      apply char_eqb_eq in E. subst c. rewrite run_len_cons_nl in Hk.
      cbn [sub_at]. destruct j as [|j].
      * apply Subseq_skip. apply (IH k 0); lia.
      * cbn [repeat app]. apply Subseq_keep. apply (IH k j); lia.
Qed.

(** X1: the cleaned text is the input with characters left out: the
    cleaner adds nothing, changes no character and keeps the order. *)
Theorem clean_only_leaves_out (x : str) : Subseq (_clean_markdown_content x) x.
Proof.
  unfold _clean_markdown_content, remove_toc, remove_next,
    remove_last_updated, collapse_newlines, remove_comments, re_sub.
  eapply Subseq_trans; [apply strip_Subseq|].
  eapply Subseq_trans; [apply sub_at_empty_Subseq|].
  eapply Subseq_trans; [apply (collapse_Subseq _ 0 0); lia|].
  eapply Subseq_trans; [apply sub_at_empty_Subseq|].
  eapply Subseq_trans; [apply sub_at_empty_Subseq|].
  apply sub_at_empty_Subseq.
Qed.

(** X2: the cleaner leaves a text as it is exactly when none of its five
    patterns matches in it and it has no white space at either end. *)
Theorem cleaner_fixed_points (y : str) :
  _clean_markdown_content y = y <->
  nothing_to_clean y = true /\ strip y = y.
Proof. apply clean_fixed_point_iff. Qed.

(** ** The ends of the cleaned text *)

Lemma strip_first s c t : strip s = c :: t -> is_space c = false.
Proof.
  unfold strip. destruct (lstrip s) as [|c0 t0] eqn:E.
  - discriminate.
  - pose proof (lstrip_head _ _ _ E) as Hc.
    rewrite (rstrip_cons _ _ Hc). intros H. inversion H; subst. exact Hc.
Qed.

Lemma strip_last s c t : rev (strip s) = c :: t -> is_space c = false.
Proof.
  unfold strip, rstrip. rewrite rev_involutive. apply lstrip_head.
Qed.

(** X3: the cleaned text is empty or has a character that is not white
    space at each end. *)
Theorem clean_output_is_trimmed (x : str) :
  (forall c t, _clean_markdown_content x = c :: t -> is_space c = false)
  /\ (forall c t, rev (_clean_markdown_content x) = c :: t ->
                  is_space c = false).
Proof.
  unfold _clean_markdown_content. split; intros c t.
  - apply strip_first.
  - apply strip_last.
Qed.

(** ** Blank lines of the full dump *)

(** X4: the text [_generate_llms_full_txt] writes holds no run of three
    newlines, whatever the records hold. *)
Theorem full_dump_has_no_newline_run (self : LLMsTxtGenerator) (w : world) :
  files (_generate_llms_full_txt self w)
        (path_join (output_dir self) (utf8 "llms-full.txt"))
  = Some (Text (full_content self))
  /\ contains [nl; nl; nl] (full_content self) = false.
Proof.
  split.
  - unfold _generate_llms_full_txt, write_file. cbn [files].
    rewrite str_eqb_refl. reflexivity.
  - unfold full_content. rewrite <- no_run_contains.
    apply collapse_leaves_no_run.
Qed.

(** X5: when the comment step finds nothing to remove, the cleaned text
    holds no run of three newlines. *)
Theorem clean_collapses_runs_without_comment (x : str) :
  has_match comment_re
    (collapse_newlines (remove_last_updated (remove_next (remove_toc x))))
  = false ->
  contains [nl; nl; nl] (_clean_markdown_content x) = false.
Proof. apply clean_no_run_without_comment. Qed.

(** X5 on a text with four newlines in a row. *)
Lemma clean_collapses_spaced_page :
  contains [nl; nl; nl] (_clean_markdown_content spaced_page) = false.
Proof.
  apply clean_collapses_runs_without_comment. vm_compute. reflexivity.
Defined.

(** ** What each removal takes away *)

Lemma first_at_dec l n s : occurs_before l n s = false -> first_at l n s.
Proof. intros H a b. apply occurs_before_false. exact H. Qed.

Lemma first_at_tail l n c s : first_at l (S n) (c :: s) -> first_at l n s.
Proof.
  intros H a b Hs. specialize (H (c :: a) b). simpl in H.
  rewrite Hs in H. specialize (H eq_refl). lia.
Qed.

Lemma first_at_head l n c s : first_at l (S n) (c :: s) ->
  drop_prefix l (c :: s) = None.
Proof.
  intros H. destruct (drop_prefix l (c :: s)) as [b|] eqn:E; [|reflexivity].
  apply drop_prefix_app in E. specialize (H [] b E). simpl in H. lia.
Qed.

(** A pattern that starts with the literal [l]: where the first [l] is
    after [body] and the match there spans [l] and [span], the substitution
    by the empty string removes exactly that and goes on after it. *)
Lemma literal_span_sub r l body span tail :
  (forall s, drop_prefix l s = None -> match_len r s = None) ->
  l <> [] ->
  match_len r (l ++ span ++ tail) = Some (length l + length span) ->
  first_at l (length body) (body ++ l ++ span ++ tail) ->
  re_sub r [] (body ++ l ++ span ++ tail) = body ++ re_sub r [] tail.
Proof.
  intros Hno Hl Hm. unfold re_sub.
  induction body as [|c body IH]; intros Hfirst.
  - destruct l as [|c0 l']; [congruence|].
    cbn [app length Nat.add] in *. rewrite sub_at_0_cons, Hm.
    replace (length l' + length span) with (length (l' ++ span))
      by apply length_app.
    rewrite app_assoc. cbn [app]. apply sub_at_skip.
  - cbn [app length] in *. rewrite sub_at_0_cons, Hno.
    + f_equal. apply IH. eapply first_at_tail, Hfirst.
    + eapply first_at_head, Hfirst.
Qed.

Lemma toc_re_marker :
  toc_re = Then (Chars toc_marker)
             (Then (AnyLazy true) (Look (Or (Chars (utf8 "##")) EndZ))).
Proof. unfold toc_re, toc_marker. reflexivity. Qed.

Lemma heading_or_end_ahead tail :
  at_heading_or_end tail ->
  rmatch (Look (Or (Chars (utf8 "##")) EndZ)) (fun rest => Some rest) tail
  = Some tail.
Proof.
  intros [-> | [t ->]]; [reflexivity|].
  cbn [rmatch]. rewrite drop_prefix_self. reflexivity.
Qed.

Lemma toc_items_match items tail :
  at_heading_or_end tail ->
  first_at (utf8 "##") (length items) (items ++ tail) ->
  rmatch (Then (AnyLazy true) (Look (Or (Chars (utf8 "##")) EndZ)))
         (fun rest => Some rest) (items ++ tail) = Some tail.
Proof.
  intros Htail. change
    (first_at (utf8 "##") (length items) (items ++ tail) ->
     lazy_star (fun c => true || negb (char_eqb c nl))
       (rmatch (Look (Or (Chars (utf8 "##")) EndZ)) (fun rest => Some rest))
       (items ++ tail) = Some tail).
  induction items as [|c items IH]; intros Hfirst.
  - apply lazy_star_now, heading_or_end_ahead, Htail.
  - cbn [app length] in *. rewrite lazy_star_later.
    + apply IH. eapply first_at_tail, Hfirst.
    + cbn [rmatch]. rewrite (first_at_head _ _ _ _ Hfirst). reflexivity.
    + reflexivity.
Qed.

(** X6: where the first table-of-contents heading stands after [body] and
    [items] is the text from it up to the next "##" or the end of the text,
    the first step removes the heading and [items], keeps [body], and goes
    on from that "##"; with no later "##" it removes all that follows the
    heading. *)
Theorem remove_toc_section (body items tail : str) :
  at_heading_or_end tail ->
  first_at (utf8 "##") (length items) (items ++ tail) ->
  first_at toc_marker (length body) (body ++ toc_marker ++ items ++ tail) ->
  remove_toc (body ++ toc_marker ++ items ++ tail) = body ++ remove_toc tail.
Proof.
  intros Htail Hitems Hfirst. unfold remove_toc.
  apply literal_span_sub; [| discriminate | | exact Hfirst].
  - intros s Hs. unfold match_len. rewrite toc_re_marker.
    cbn [rmatch]. rewrite Hs. reflexivity.
  - unfold match_len. rewrite toc_re_marker.
    cbn [rmatch]. rewrite drop_prefix_self.
    change (lazy_star _ _ (items ++ tail)) with
      (rmatch (Then (AnyLazy true) (Look (Or (Chars (utf8 "##")) EndZ)))
              (fun rest => Some rest) (items ++ tail)).
    rewrite (toc_items_match _ _ Htail Hitems).
    rewrite !length_app. f_equal. lia.
Qed.

(** X6 on a page with two entries in its table of contents. *)
Lemma remove_toc_of_page :
  remove_toc (toc_page_body ++ toc_marker ++ toc_page_items ++ toc_page_tail)
  = toc_page_body ++ remove_toc toc_page_tail.
Proof.
  apply remove_toc_section.
  - right. exists (utf8 " Setup" ++ [nl] ++ utf8 "Install it." ++ [nl]).
    vm_compute. reflexivity.
  - apply first_at_dec. vm_compute. reflexivity.
  - apply first_at_dec. vm_compute. reflexivity.
Defined.

(** X7: where the first "**Next:**" stands after [body], the second step
    removes it and the rest of its line, keeps [body] and the newline that
    ends the line, and goes on after it. *)
Theorem remove_next_breadcrumb (body rest tail : str) :
  ~ In nl rest -> at_line_end tail ->
  first_at (utf8 "**Next:**") (length body)
           (body ++ utf8 "**Next:**" ++ rest ++ tail) ->
  remove_next (body ++ utf8 "**Next:**" ++ rest ++ tail)
  = body ++ remove_next tail.
Proof.
  intros Hrest Htail Hfirst. unfold remove_next.
  rewrite next_re_line_tail. apply line_tail_sub; auto. discriminate.
Qed.

(** X7 on a breadcrumb at the end of a line of text. *)
Lemma remove_next_of_line :
  remove_next (utf8 "Done. " ++ utf8 "**Next:**" ++ utf8 " [Other](other.md)"
                 ++ [nl] ++ utf8 "More.")
  = utf8 "Done. " ++ remove_next ([nl] ++ utf8 "More.").
Proof.
  apply remove_next_breadcrumb.
  - apply forallb_not_nl. vm_compute. reflexivity.
  - right. exists (utf8 "More."). reflexivity.
  - apply first_at_dec. vm_compute. reflexivity.
Defined.

Lemma comment_re_marks :
  comment_re
  = Then (Chars comment_open) (Then (AnyLazy true) (Chars comment_close)).
Proof. unfold comment_re, comment_open, comment_close. reflexivity. Qed.

Lemma comment_inner_match inner tail :
  first_at comment_close (length inner) (inner ++ comment_close ++ tail) ->
  rmatch (Then (AnyLazy true) (Chars comment_close))
         (fun rest => Some rest) (inner ++ comment_close ++ tail) = Some tail.
Proof.
  change
    (first_at comment_close (length inner) (inner ++ comment_close ++ tail) ->
     lazy_star (fun c => true || negb (char_eqb c nl))
       (rmatch (Chars comment_close) (fun rest => Some rest))
       (inner ++ comment_close ++ tail) = Some tail).
  induction inner as [|c inner IH]; intros Hfirst.
  - apply lazy_star_now. cbn [rmatch app].
    rewrite drop_prefix_self. reflexivity.
  - cbn [app length] in *. rewrite lazy_star_later.
    + apply IH. eapply first_at_tail, Hfirst.
    + cbn [rmatch]. rewrite (first_at_head _ _ _ _ Hfirst). reflexivity.
    + reflexivity.
Qed.

(** X8: where the first "<!--" stands after [body] and the first "-->"
    after it closes [inner], the comment step removes the comment, markers
    and all, across lines, keeps [body], and goes on after the "-->". *)
Theorem remove_comment_block (body inner tail : str) :
  first_at comment_close (length inner) (inner ++ comment_close ++ tail) ->
  first_at comment_open (length body)
           (body ++ comment_open ++ inner ++ comment_close ++ tail) ->
  remove_comments (body ++ comment_open ++ inner ++ comment_close ++ tail)
  = body ++ remove_comments tail.
Proof.
  intros Hclose Hopen. unfold remove_comments.
  replace (body ++ comment_open ++ inner ++ comment_close ++ tail)
    with (body ++ comment_open ++ (inner ++ comment_close) ++ tail) in *
    by (rewrite <- !app_assoc; reflexivity).
  apply literal_span_sub; [| discriminate | | exact Hopen].
  - intros s Hs. unfold match_len. rewrite comment_re_marks.
    cbn [rmatch]. rewrite Hs. reflexivity.
  - unfold match_len. rewrite comment_re_marks.
    cbn [rmatch]. rewrite drop_prefix_self.
    change (lazy_star _ _ ((inner ++ comment_close) ++ tail)) with
      (rmatch (Then (AnyLazy true) (Chars comment_close))
              (fun rest => Some rest) ((inner ++ comment_close) ++ tail)).
    rewrite <- app_assoc, (comment_inner_match _ _ Hclose).
    rewrite !length_app. f_equal. lia.
Qed.

(** X8 on a comment of two lines between two words. *)
Lemma remove_comment_of_two_lines :
  remove_comments (utf8 "a " ++ comment_open ++ (utf8 " one" ++ [nl] ++ utf8 "two ")
                     ++ comment_close ++ utf8 " b")
  = utf8 "a " ++ remove_comments (utf8 " b").
Proof.
  apply remove_comment_block; apply first_at_dec; vm_compute; reflexivity.
Defined.

Lemma contains_tail a c s : contains a (c :: s) = false -> contains a s = false.
Proof.
  rewrite contains_eq. destruct (drop_prefix a (c :: s)); [discriminate|].
  auto.
Qed.

Lemma comment_match_closes s n :
  match_len comment_re s = Some n -> contains comment_close s = true.
Proof.
  unfold match_len. rewrite comment_re_marks. cbn [rmatch].
  destruct (drop_prefix comment_open s) as [s1|] eqn:E; [|discriminate].
  destruct (lazy_star _ _ s1) as [rest|] eqn:L; [|discriminate].
  intros _. apply drop_prefix_app in E. subst s.
  apply lazy_star_consumes in L. destruct L as (pre & s' & -> & Hk).
  cbn [rmatch] in Hk.
  destruct (drop_prefix comment_close s') as [t|] eqn:D; [|discriminate].
  apply drop_prefix_app in D. subst s'.
  apply contains_occurs. exists (comment_open ++ pre), t.
  rewrite <- !app_assoc. reflexivity.
Qed.

Lemma no_closer_no_comment s :
  contains comment_close s = false -> has_match comment_re s = false.
Proof.
  induction s as [|c s IH]; intros H; cbn [has_match].
  - destruct (match_len comment_re []) eqn:E; [|reflexivity].
    apply comment_match_closes in E. congruence.
  - destruct (match_len comment_re (c :: s)) eqn:E.
    + apply comment_match_closes in E. congruence.
    + apply IH. eapply contains_tail, H.
Qed.

(** X9: a text with no "-->" passes the comment step unchanged: a comment
    that is opened and never closed stays in the text. *)
Theorem unclosed_comment_stays (s : str) :
  contains comment_close s = false -> remove_comments s = s.
Proof.
  intros H. unfold remove_comments.
  apply re_sub_no_match, no_closer_no_comment, H.
Qed.

(** X9 on a text that opens a comment and ends. *)
Lemma unclosed_comment_of_draft :
  remove_comments (utf8 "text <!-- draft, to do")
  = utf8 "text <!-- draft, to do".
Proof. apply unclosed_comment_stays. vm_compute. reflexivity. Defined.

(** ** The records a run makes *)

Lemma loaded_paths fs dir cfg :
  map path (flat_map (entry_docs fs dir) cfg)
  = map fst (filter (fun entry =>
                       match fs (path_join dir (fst entry)) with
                       | Some _ => true
                       | None => false
                       end) cfg).
Proof.
  induction cfg as [|entry cfg IH]; [reflexivity|].
  cbn [flat_map filter]. rewrite map_app, IH. unfold entry_docs at 1.
  destruct (fs (path_join dir (fst entry))); reflexivity.
Qed.

Lemma table_order_NoDup l :
  StronglySorted table_order l -> NoDup (map path l).
Proof.
  induction 1 as [|d l Hs IH Hd]; cbn [map]; constructor; [|exact IH].
  intros Hin. apply in_map_iff in Hin. destruct Hin as (d' & Hp & Hd').
  rewrite Forall_forall in Hd. specialize (Hd _ Hd').
  unfold table_order in Hd. rewrite Hp in Hd. lia.
Qed.

(** X10: after a run of a new generator there is exactly one record for
    each configured file that is there: the paths of the records are those
    of the table whose file is there, none of them twice. *)
Theorem one_record_per_file (dir out : str) (w : world) :
  Permutation (map path (doc_files (fst (run (init dir out) w))))
              (map fst (present w dir))
  /\ NoDup (map path (doc_files (fst (run (init dir out) w)))).
Proof.
  rewrite run_doc_files.
  assert (P : Permutation (map path (sort_by_priority (loaded (files w) dir)))
                          (map path (loaded (files w) dir)))
    by (apply Permutation_map, Permutation_sym, sort_perm).
  split.
  - eapply perm_trans; [exact P|]. unfold loaded, present, exists_.
    rewrite loaded_paths. apply Permutation_refl.
  - eapply Permutation_NoDup; [apply Permutation_sym, P|].
    apply table_order_NoDup, loaded_in_table_order.
Qed.

(** X11: a run keeps the records the generator holds and adds those of the
    files that are there: run twice, one generator holds every record
    twice. *)
Theorem run_adds_to_records (self : LLMsTxtGenerator) (w : world) :
  Permutation (doc_files (fst (run self w)))
              (doc_files self ++ loaded (files w) (docs_dir self))
  /\ length (doc_files (fst (run self w)))
     = length (doc_files self) + length (present w (docs_dir self)).
Proof.
  destruct (run_spec self w) as (-> & _). unfold parsed. cbn [doc_files].
  assert (P : Permutation
                (sort_by_priority
                   (doc_files self ++ loaded (files w) (docs_dir self)))
                (doc_files self ++ loaded (files w) (docs_dir self)))
    by apply Permutation_sym, sort_perm.
  split; [exact P|].
  rewrite (Permutation_length P), length_app. f_equal.
  rewrite <- (length_map path (loaded _ _)). unfold loaded.
  rewrite loaded_paths, length_map. reflexivity.
Qed.

(** X12: a run changes no file but its two outputs. *)
Theorem run_writes_only_outputs (self : LLMsTxtGenerator) (w : world)
    (q : str) :
  q <> path_join (output_dir self) (utf8 "llms.txt") ->
  q <> path_join (output_dir self) (utf8 "llms-full.txt") ->
  files (snd (run self w)) q = files w q.
Proof.
  intros H1 H2. destruct (run_spec self w) as (_ & Hf & _). rewrite Hf.
  apply str_eqb_neq in H1, H2. rewrite H1, H2. reflexivity.
Qed.

(** X12 for the page of the sample world. *)
Lemma run_keeps_readme :
  files (snd (run (init (utf8 "docs") (utf8 ".")) sample_world))
        (utf8 "docs/README.md")
  = files sample_world (utf8 "docs/README.md").
Proof.
  apply run_writes_only_outputs; apply str_eqb_neq; vm_compute; reflexivity.
Defined.

(** ** The stable sort *)

Lemma insert_priority_sorted x l :
  StronglySorted priority_le l ->
  StronglySorted priority_le (insert_by_priority x l).
Proof.
  induction 1 as [|y l Hs IH Hy]; cbn [insert_by_priority].
  - constructor; constructor.
  - destruct (priority x <=? priority y)%Z eqn:E.
    + apply Z.leb_le in E. constructor; [constructor; assumption|].
      constructor; [exact E|].
      rewrite Forall_forall in *. intros z Hz. specialize (Hy _ Hz).
      unfold priority_le in *. lia.
    + apply Z.leb_gt in E. constructor; [exact IH|].
      apply Forall_forall. intros z Hz. apply insert_In in Hz.
      destruct Hz as [-> | Hz].
      * unfold priority_le. lia.
      * rewrite Forall_forall in Hy. apply Hy, Hz.
Qed.

Lemma sort_priority_sorted l : StronglySorted priority_le (sort_by_priority l).
Proof.
  induction l as [|x l IH]; cbn [sort_by_priority]; [constructor|].
  apply insert_priority_sorted, IH.
Qed.

Lemma of_priority_insert p x l :
  of_priority p (insert_by_priority x l)
  = if (priority x =? p)%Z then x :: of_priority p l else of_priority p l.
Proof.
  unfold of_priority. induction l as [|y l IH]; cbn [insert_by_priority filter].
  - reflexivity.
  - destruct (priority x <=? priority y)%Z eqn:E; cbn [filter].
    + reflexivity.
    + apply Z.leb_gt in E. rewrite IH.
      destruct (priority x =? p)%Z eqn:Ex; [|reflexivity].
      apply Z.eqb_eq in Ex.
      destruct (priority y =? p)%Z eqn:Ey; [|reflexivity].
      apply Z.eqb_eq in Ey. lia.
Qed.

Lemma of_priority_sort p l :
  of_priority p (sort_by_priority l) = of_priority p l.
Proof.
  induction l as [|x l IH]; [reflexivity|].
  cbn [sort_by_priority]. rewrite of_priority_insert, IH.
  unfold of_priority. cbn [filter]. reflexivity.
Qed.

(** X13: whatever records the generator held, after parsing they are in
    ascending order of priority, and the records of any one priority are
    in the order in which they were appended: the sort is stable. *)
Theorem parse_sorts_stably (self : LLMsTxtGenerator) (w : world) (p : Z) :
  StronglySorted priority_le (doc_files (fst (_parse_documentation self w)))
  /\ of_priority p (doc_files (fst (_parse_documentation self w)))
     = of_priority p (doc_files self ++ loaded (files w) (docs_dir self)).
Proof.
  rewrite parse_fst. unfold parsed. cbn [doc_files].
  split; [apply sort_priority_sorted | apply of_priority_sort].
Qed.

(** ** Blank files *)

Lemma sub_at_Forall (P : char -> Prop) r repl s : forall skip,
  Forall P repl -> Forall P s -> Forall P (sub_at r repl skip s).
Proof.
  induction s as [|c s IH]; intros [|k] Hr Hs; cbn [sub_at].
  - destruct (match_len r []) as [[|n]|]; rewrite ?app_nil_r; auto.
  - constructor.
  - inversion Hs; subst.
    destruct (match_len r (c :: s)) as [[|n]|];
      try apply Forall_app; auto.
  - inversion Hs; subst. auto.
Qed.

Lemma lstrip_blank s : Forall (fun c => is_space c = true) s -> lstrip s = [].
Proof.
  induction 1 as [|c s Hc _ IH]; cbn [lstrip]; [reflexivity|].
  rewrite Hc. exact IH.
Qed.

Lemma clean_blank text :
  Forall (fun c => is_space c = true) text -> _clean_markdown_content text = [].
Proof.
  intros H. unfold _clean_markdown_content, strip, remove_toc, remove_next,
    remove_last_updated, collapse_newlines, remove_comments, re_sub.
  rewrite lstrip_blank; [reflexivity|].
  repeat apply sub_at_Forall; auto; repeat constructor.
Qed.

(** X14: a configured file that holds white space only, or nothing, gets a
    record with empty content, and that record adds nothing to the full
    dump. *)
Theorem blank_file_adds_no_section (dir out : str) (w : world)
    (rel : str) (config : Config) (text : str) :
  In (rel, config) file_config ->
  files w (path_join dir rel) = Some (Text text) ->
  Forall (fun c => is_space c = true) text ->
  In (entry_record (rel, config) []) (doc_files (fst (run (init dir out) w)))
  /\ doc_parts (entry_record (rel, config) []) = [].
Proof.
  intros Hin Hf Hblank. split; [|reflexivity].
  apply run_records. exists (rel, config), (Text text).
  repeat split; auto. cbn [entry_content].
  rewrite (clean_blank _ Hblank). reflexivity.
Qed.

(** X14 in a world whose [docs/README.md] is three spaces between
    newlines. *)
Lemma blank_readme_adds_no_section :
  In (entry_record (fst readme_entry, snd readme_entry) [])
     (doc_files (fst (run (init (utf8 "docs") (utf8 ".")) blank_world)))
  /\ doc_parts (entry_record (fst readme_entry, snd readme_entry) []) = [].
Proof.
  apply (blank_file_adds_no_section (utf8 "docs") (utf8 ".") blank_world
           (fst readme_entry) (snd readme_entry)
           ([nl] ++ utf8 "   " ++ [nl; nl])).
  - vm_compute. left. reflexivity.
  - vm_compute. reflexivity.
  - vm_compute. repeat constructor.
Defined.

(** ** The fixed parts of the full dump *)

Lemma run_len_app_head x b : run_len b = 0 -> run_len (x ++ b) = run_len x.
Proof.
  intros Hb. induction x as [|c x IH]; cbn [app run_len]; [exact Hb|].
  destruct (char_eqb c nl); [rewrite IH|]; reflexivity.
Qed.

Lemma run_len_app_short x b : run_len x < length x -> run_len (x ++ b) = run_len x.
Proof.
  induction x as [|c x IH]; cbn [app run_len length]; [lia|].
  destruct (char_eqb c nl); [|reflexivity].
  intros H. rewrite IH; [reflexivity | lia].
Qed.

Lemma run_len_snoc_short x c : char_eqb c nl = false ->
  run_len (x ++ [c]) < length (x ++ [c]).
Proof.
  intros Hc. induction x as [|d x IH]; cbn [app run_len length].
  - rewrite Hc. lia.
  - destruct (char_eqb d nl); lia.
Qed.

(** The collapse of two texts joined is the two collapses joined, when no
    run of newlines goes over the joint. *)
Lemma collapse_app_at a b :
  (forall y x, a = y ++ x -> x <> [] -> run_len (x ++ b) = run_len x) ->
  forall skip, skip <= run_len a ->
  sub_at newlines_re [nl; nl] skip (a ++ b)
  = sub_at newlines_re [nl; nl] skip a ++ sub_at newlines_re [nl; nl] 0 b.
Proof.
  induction a as [|c a IH]; intros H k Hk.
  - cbn [run_len] in Hk. assert (k = 0) by lia. subst k. reflexivity.
  - assert (H0 : run_len ((c :: a) ++ b) = run_len (c :: a))
      by (apply (H [] (c :: a)); [reflexivity | discriminate]).
    assert (H' : forall y x, a = y ++ x -> x <> [] ->
                             run_len (x ++ b) = run_len x)
      by (intros y x -> Hx; apply (H (c :: y) x); [reflexivity | exact Hx]).
    specialize (IH H'). destruct k as [|k].
    + cbn [app] in *. rewrite !sub_at_0_cons, !match_len_newlines, H0.
      destruct (3 <=? run_len (c :: a)) eqn:L.
      * apply Nat.leb_le in L.
        destruct (char_eqb c nl) eqn:E;
          [|rewrite (run_len_cons_other _ _ E) in L; lia].
        apply char_eqb_eq in E. subst c. rewrite run_len_cons_nl.
        rewrite IH by lia. rewrite <- app_assoc. reflexivity.
      * rewrite IH by lia. reflexivity.
    + destruct (char_eqb c nl) eqn:E;
        [|rewrite (run_len_cons_other _ _ E) in Hk; lia].
      apply char_eqb_eq in E. subst c. rewrite run_len_cons_nl in Hk.
      cbn [app sub_at]. apply IH. lia.
Qed.

Lemma collapse_app_head a b :
  run_len b = 0 ->
  collapse_newlines (a ++ b) = collapse_newlines a ++ collapse_newlines b.
Proof.
  intros Hb. unfold collapse_newlines, re_sub.
  apply collapse_app_at; [|lia].
  intros y x _ _. apply run_len_app_head, Hb.
Qed.

Lemma collapse_app_last a c b :
  char_eqb c nl = false ->
  collapse_newlines ((a ++ [c]) ++ b)
  = collapse_newlines (a ++ [c]) ++ collapse_newlines b.
Proof.
  intros Hc. unfold collapse_newlines, re_sub.
  apply collapse_app_at; [|lia].
  intros y x Hyx Hx. apply run_len_app_short.
  destruct (exists_last Hx) as (x0 & d & ->).
  rewrite app_assoc in Hyx. apply app_inj_tail in Hyx.
  destruct Hyx as [_ <-]. apply run_len_snoc_short, Hc.
Qed.

Lemma collapse_two_newlines s :
  exists middle, collapse_newlines ([nl; nl] ++ s) = [nl; nl] ++ middle.
Proof.
  destruct (collapse_invariant ([nl; nl] ++ s)) as [[_ H] _].
  fold (re_sub newlines_re [nl; nl] ([nl; nl] ++ s)) in H.
  fold (collapse_newlines ([nl; nl] ++ s)) in H.
  cbn [app] in H. rewrite !run_len_cons_nl in H.
  assert (H2 : run_len (collapse_newlines ([nl; nl] ++ s)) = 2)
    by (cbn [app]; lia).
  exists (skipn 2 (collapse_newlines ([nl; nl] ++ s))).
  rewrite (run_len_repeat (collapse_newlines ([nl; nl] ++ s))) at 1.
  rewrite H2. reflexivity.
Qed.

Lemma overview_split :
  full_overview = (removelast overview_body ++ [last overview_body nl])
                    ++ [nl; nl]
  /\ char_eqb (last overview_body nl) nl = false
  /\ run_len full_overview = 0
  /\ (0 <? length full_overview) = true.
Proof. repeat split; vm_compute; reflexivity. Qed.

Lemma fixed_parts_collapse :
  collapse_newlines full_title = full_title
  /\ collapse_newlines (removelast overview_body ++ [last overview_body nl])
     = removelast overview_body ++ [last overview_body nl]
  /\ collapse_newlines _build_quick_reference = _build_quick_reference
  /\ run_len _build_quick_reference = 0.
Proof. repeat split; vm_compute; reflexivity. Qed.

Lemma collapse_overview body :
  exists middle,
    collapse_newlines (full_overview ++ body) = full_overview ++ middle.
Proof.
  destruct overview_split as (Ho & Hc & _).
  destruct fixed_parts_collapse as (_ & Co & _).
  set (a := removelast overview_body) in *.
  set (c := last overview_body nl) in *. clearbody a c.
  rewrite Ho, <- (app_assoc (a ++ [c]) [nl; nl] body).
  rewrite (collapse_app_last a c _ Hc), Co.
  destruct (collapse_two_newlines body) as [middle ->].
  exists middle. rewrite <- !app_assoc. reflexivity.
Qed.

(** X15: whatever the records hold, the full dump starts with its title
    and its overview and ends with the quick reference, each as it is in
    the script. *)
Theorem full_dump_fixed_parts (self : LLMsTxtGenerator) :
  exists middle,
    full_content self
    = full_title ++ full_overview ++ middle ++ _build_quick_reference.
Proof.
  destruct overview_split as (_ & _ & Hr & Hl).
  destruct fixed_parts_collapse as (Ct & _ & Cq & Rq).
  apply Nat.ltb_lt in Hl.
  unfold full_content, full_content_parts.
  set (body := concat (flat_map doc_parts (doc_files self))).
  assert (E : concat ([full_title; full_overview]
                        ++ flat_map doc_parts (doc_files self)
                        ++ [_build_quick_reference])
              = full_title ++ (full_overview ++ body) ++ _build_quick_reference).
  { rewrite !concat_app. cbn [concat]. fold body.
    rewrite !app_nil_r, <- !app_assoc. reflexivity. }
  rewrite E, app_assoc.
  rewrite (collapse_app_head _ _ Rq), Cq.
  rewrite (collapse_app_head full_title (full_overview ++ body))
    by (rewrite run_len_app_short; [exact Hr | rewrite Hr; exact Hl]).
  rewrite Ct. destruct (collapse_overview body) as [middle ->].
  exists middle. rewrite <- !app_assoc. reflexivity.
Qed.

(** X16: collapsing the runs of newlines a second time changes nothing,
    and the collapse never makes a text longer. *)
Theorem collapse_newlines_idempotent (s : str) :
  collapse_newlines (collapse_newlines s) = collapse_newlines s
  /\ length (collapse_newlines s) <= length s.
Proof.
  split.
  - unfold collapse_newlines at 1.
    apply re_sub_no_match, collapse_leaves_no_run.
  - apply (re_sub_length _ _ newlines_re_shorter).
Qed.

(** * Idempotence of the cleaner *)

(** ** Tools *)

Lemma str_length_ind (P : str -> Prop) :
  (forall s, (forall t, length t < length s -> P t) -> P s) ->
  forall s, P s.
Proof.
  intros H s. remember (length s) as n eqn:Hn.
  revert s Hn. induction n as [n IH] using lt_wf_ind.
  intros s Hn. apply H. intros t Ht. apply (IH (length t)); [lia | reflexivity].
Qed.

Lemma starts_with_nil s : starts_with [] s.
Proof. exists s. reflexivity. Qed.

Lemma starts_with_cons c m s : starts_with m s -> starts_with (c :: m) (c :: s).
Proof. intros [t ->]. exists t. reflexivity. Qed.

Lemma starts_with_cons_inv a m c s :
  starts_with (a :: m) (c :: s) -> a = c /\ starts_with m s.
Proof. intros [t H]. inversion H; subst. split; [reflexivity | exists t; reflexivity]. Qed.

Lemma starts_with_drop m s : starts_with m s -> drop_prefix m s <> None.
Proof. intros [t ->]. rewrite drop_prefix_self. discriminate. Qed.

Lemma starts_with_occurs m s : starts_with m s -> occurs m s.
Proof. intros [t ->]. exists [], t. reflexivity. Qed.

Lemma occurs_cons m c s : occurs m s -> occurs m (c :: s).
Proof. intros (pre & post & ->). exists (c :: pre), post. reflexivity. Qed.

Lemma occurs_cons_inv m c s :
  occurs m (c :: s) -> starts_with m (c :: s) \/ occurs m s.
Proof.
  intros ([|x pre] & post & H).
  - left. exists post. exact H.
  - right. inversion H; subst. exists pre, post. reflexivity.
Qed.

Lemma occurs_app_l m p s : occurs m s -> occurs m (p ++ s).
Proof.
  intros H. induction p as [|c p IH]; [exact H|]. apply occurs_cons, IH.
Qed.

Lemma occurs_nil_inv m : occurs m [] -> m = [].
Proof.
  intros (pre & post & H). destruct pre, m; try discriminate. reflexivity.
Qed.

Lemma occurs_part m a b s : occurs (a ++ m ++ b) s -> occurs m s.
Proof.
  intros (pre & post & ->). exists (pre ++ a), (b ++ post).
  rewrite <- !app_assoc. reflexivity.
Qed.

Lemma not_contains_occurs m s : contains m s = false -> ~ occurs m s.
Proof.
  intros H Ho. apply contains_occurs in Ho. congruence.
Qed.

Lemma not_occurs_contains m s : ~ occurs m s -> contains m s = false.
Proof.
  intros H. destruct (contains m s) eqn:E; [|reflexivity].
  apply contains_occurs in E. contradiction.
Qed.

(** A pattern that starts with the literal [l] matches nowhere in a text
    in which [l] does not occur. *)
Lemma literal_needed r l s :
  (forall t, drop_prefix l t = None -> match_len r t = None) ->
  ~ occurs l s -> has_match r s = false.
Proof.
  intros Hno. induction s as [|c s IH]; intros H; cbn [has_match].
  - rewrite Hno; [reflexivity|].
    destruct (drop_prefix l []) as [t|] eqn:E; [|reflexivity].
    apply drop_prefix_app in E. exfalso. apply H. exists [], t. exact E.
  - rewrite Hno.
    + apply IH. intros Ho. apply H, occurs_cons, Ho.
    + destruct (drop_prefix l (c :: s)) as [t|] eqn:E; [|reflexivity].
      apply drop_prefix_app in E. exfalso. apply H. exists [], t. exact E.
Qed.

(** ** Patterns that remove a span up to a stop *)

Section SpanPattern.

Variable r : regex.
Variable l : str.
Variable d0 : char.
Variable dr : str.

Hypothesis l_not_empty : l <> [].
Hypothesis no_match : forall s, drop_prefix l s = None -> match_len r s = None.
Hypothesis match_span : forall u,
  exists span tail, u = span ++ tail /\ stops_at (d0 :: dr) tail
                    /\ match_len r (l ++ u) = Some (length l + length span).

Lemma span_sub_nil : re_sub r [] [] = [].
Proof.
  unfold re_sub. cbn [sub_at]. rewrite no_match; [reflexivity|].
  destruct l; [congruence | reflexivity].
Qed.

Lemma span_sub_keep c s :
  drop_prefix l (c :: s) = None -> re_sub r [] (c :: s) = c :: re_sub r [] s.
Proof.
  intros H. unfold re_sub. rewrite sub_at_0_cons, no_match; auto.
Qed.

Lemma span_sub_match u :
  exists span tail, u = span ++ tail /\ stops_at (d0 :: dr) tail
                    /\ re_sub r [] (l ++ u) = re_sub r [] tail.
Proof.
  destruct (match_span u) as (span & tail & -> & Hstop & Hm).
  exists span, tail. repeat split; auto.
  apply (literal_span_sub r l [] span tail); auto.
  intros a b _. cbn [length]. lia.
Qed.

(** The three cases of the substitution. *)
Lemma span_sub_cases s :
  s = []
  \/ (exists c s', s = c :: s' /\ drop_prefix l s = None
                   /\ re_sub r [] s = c :: re_sub r [] s')
  \/ (exists span tail, s = l ++ span ++ tail /\ stops_at (d0 :: dr) tail
                        /\ re_sub r [] s = re_sub r [] tail).
Proof.
  destruct s as [|c s]; [left; reflexivity|]. right.
  destruct (drop_prefix l (c :: s)) as [u|] eqn:E.
  - right. apply drop_prefix_app in E. rewrite E.
    destruct (span_sub_match u) as (span & tail & -> & Hstop & Hf).
    exists span, tail. auto.
  - left. exists c, s. repeat split; auto. apply span_sub_keep, E.
Qed.

Lemma span_tail_shorter span tail : length tail < length (l ++ span ++ tail).
Proof.
  rewrite !length_app. destruct l; [congruence|]. cbn [length]. lia.
Qed.

(** A text without [d0] that the result starts with, the input starts
    with. *)
Lemma span_sub_starts m : ~ In d0 m ->
  forall s, starts_with m (re_sub r [] s) -> starts_with m s.
Proof.
  intros Hm s. revert m Hm.
  induction s as [s IH] using str_length_ind. intros m Hm H.
  destruct m as [|a m]; [apply starts_with_nil|].
  destruct (span_sub_cases s)
    as [-> | [(c & s' & -> & Hd & Hf) | (span & tail & -> & Hstop & Hf)]].
  - rewrite span_sub_nil in H. destruct H as [t H]. discriminate.
  - rewrite Hf in H. apply starts_with_cons_inv in H. destruct H as [-> H].
    apply starts_with_cons, IH; [cbn [length]; lia | | exact H].
    intros Hin. apply Hm. right. exact Hin.
  - rewrite Hf in H. exfalso.
    apply IH in H; [| apply span_tail_shorter | exact Hm].
    destruct Hstop as [-> | [t ->]].
    + destruct H as [t H]. discriminate.
    + apply starts_with_cons_inv in H. destruct H as [-> _].
      apply Hm. left. reflexivity.
Qed.

(** A text without [d0] that occurs in the result occurs in the input. *)
Lemma span_sub_occurs m : ~ In d0 m ->
  forall s, occurs m (re_sub r [] s) -> occurs m s.
Proof.
  intros Hm s. induction s as [s IH] using str_length_ind. intros H.
  destruct (span_sub_cases s)
    as [-> | [(c & s' & -> & Hd & Hf) | (span & tail & -> & Hstop & Hf)]].
  - rewrite span_sub_nil in H. exact H.
  - rewrite Hf in H. apply occurs_cons_inv in H. destruct H as [H | H].
    + rewrite <- Hf in H. apply starts_with_occurs, (span_sub_starts m Hm), H.
    + apply occurs_cons, IH; [cbn [length]; lia | exact H].
  - rewrite Hf in H. apply IH in H; [| apply span_tail_shorter].
    rewrite app_assoc. apply occurs_app_l, H.
Qed.

(** A literal without [d0] does not occur in the result. *)
Lemma span_sub_removes_all : ~ In d0 l ->
  forall s, ~ occurs l (re_sub r [] s).
Proof.
  intros Hl s. induction s as [s IH] using str_length_ind. intros H.
  destruct (span_sub_cases s)
    as [-> | [(c & s' & -> & Hd & Hf) | (span & tail & -> & Hstop & Hf)]].
  - rewrite span_sub_nil in H. apply occurs_nil_inv in H. congruence.
  - rewrite Hf in H. apply occurs_cons_inv in H. destruct H as [H | H].
    + rewrite <- Hf in H. apply (span_sub_starts l Hl), starts_with_drop in H.
      congruence.
    + apply (IH s'); [cbn [length]; lia | exact H].
  - rewrite Hf in H. apply (IH tail); [apply span_tail_shorter | exact H].
Qed.

End SpanPattern.

(** ** A heading pattern removes every heading *)

Section HeadingPattern.

Variable r : regex.
Variable d0 : char.
Variable m2 : str.
Variable dr : str.

Hypothesis m2_not_empty : m2 <> [].
Hypothesis m2_free : ~ In d0 m2.
Hypothesis no_match :
  forall s, drop_prefix (d0 :: d0 :: m2) s = None -> match_len r s = None.
Hypothesis match_span : forall u,
  exists span tail, u = span ++ tail /\ stops_at (d0 :: d0 :: dr) tail
                    /\ match_len r ((d0 :: d0 :: m2) ++ u)
                       = Some (length (d0 :: d0 :: m2) + length span).

Lemma heading_not_empty : d0 :: d0 :: m2 <> [].
Proof. discriminate. Qed.

Lemma heading_sub_starts_inner s :
  starts_with (d0 :: m2) (re_sub r [] s) -> starts_with (d0 :: m2) s.
Proof.
  induction s as [s IH] using str_length_ind. intros H.
  destruct (span_sub_cases r (d0 :: d0 :: m2) d0 (d0 :: dr)
              heading_not_empty no_match match_span s)
    as [-> | [(c & s' & -> & Hd & Hf) | (span & tail & -> & Hstop & Hf)]].
  - rewrite (span_sub_nil r _ d0 (d0 :: dr) heading_not_empty no_match
               match_span) in H.
    destruct H as [t H]. discriminate.
  - rewrite Hf in H. apply starts_with_cons_inv in H. destruct H as [<- H].
    apply starts_with_cons.
    apply (span_sub_starts r _ d0 (d0 :: dr) heading_not_empty no_match
             match_span m2 m2_free), H.
  - rewrite Hf in H. exfalso.
    apply IH in H; [| apply (span_tail_shorter r _ d0 (d0 :: dr) heading_not_empty
                        no_match match_span)].
    destruct Hstop as [-> | [t ->]].
    + destruct H as [t H]. discriminate.
    + cbn [app] in H. apply starts_with_cons_inv in H. destruct H as [_ H].
      destruct m2 as [|a m]; [congruence|].
      apply starts_with_cons_inv in H. destruct H as [-> _].
      apply m2_free. left. reflexivity.
Qed.

Lemma heading_sub_not_first s : ~ starts_with (d0 :: d0 :: m2) (re_sub r [] s).
Proof.
  induction s as [s IH] using str_length_ind. intros H.
  destruct (span_sub_cases r (d0 :: d0 :: m2) d0 (d0 :: dr)
              heading_not_empty no_match match_span s)
    as [-> | [(c & s' & -> & Hd & Hf) | (span & tail & -> & Hstop & Hf)]].
  - rewrite (span_sub_nil r _ d0 (d0 :: dr) heading_not_empty no_match
               match_span) in H.
    destruct H as [t H]. discriminate.
  - rewrite Hf in H. apply starts_with_cons_inv in H. destruct H as [<- H].
    apply heading_sub_starts_inner in H.
    apply (starts_with_cons d0), starts_with_drop in H. congruence.
  - rewrite Hf in H.
    apply (IH tail); [apply (span_tail_shorter r _ d0 (d0 :: dr) heading_not_empty
                        no_match match_span) | exact H].
Qed.

Lemma heading_sub_removes_all s : ~ occurs (d0 :: d0 :: m2) (re_sub r [] s).
Proof.
  induction s as [s IH] using str_length_ind. intros H.
  destruct (span_sub_cases r (d0 :: d0 :: m2) d0 (d0 :: dr)
              heading_not_empty no_match match_span s)
    as [-> | [(c & s' & -> & Hd & Hf) | (span & tail & -> & Hstop & Hf)]].
  - rewrite (span_sub_nil r _ d0 (d0 :: dr) heading_not_empty no_match
               match_span) in H.
    apply occurs_nil_inv in H. discriminate.
  - rewrite Hf in H. apply occurs_cons_inv in H. destruct H as [H | H].
    + rewrite <- Hf in H. exact (heading_sub_not_first _ H).
    + apply (IH s'); [cbn [length]; lia | exact H].
  - rewrite Hf in H.
    apply (IH tail); [apply (span_tail_shorter r _ d0 (d0 :: dr) heading_not_empty
                        no_match match_span) | exact H].
Qed.

End HeadingPattern.

(** ** The two span patterns of the cleaner *)

Lemma split_line u :
  exists rest tail, u = rest ++ tail /\ ~ In nl rest /\ at_line_end tail.
Proof.
  induction u as [|c u (rest & tail & -> & Hr & Ht)].
  - exists [], []. repeat split; [intros [] | left; reflexivity].
  - destruct (char_eqb c nl) eqn:E.
    + apply char_eqb_eq in E. subst c. exists [], (nl :: rest ++ tail).
      repeat split; [intros [] | right; eexists; reflexivity].
    + exists (c :: rest), tail. repeat split; [| exact Ht].
      intros [-> | H]; [|exact (Hr H)].
      unfold char_eqb in E. rewrite N.eqb_refl in E. discriminate.
Qed.

Lemma split_heading u :
  exists items tail, u = items ++ tail /\ at_heading_or_end tail
    /\ first_at (utf8 "##") (length items) (items ++ tail).
Proof.
  induction u as [|c u IH].
  - exists [], []. repeat split; [left; reflexivity|].
    intros a b _. cbn [length]. lia.
  - destruct IH as (items & tail & -> & Ht & Hf).
    destruct (drop_prefix (utf8 "##") (c :: items ++ tail)) as [t|] eqn:E.
    + apply drop_prefix_app in E. exists [], (c :: items ++ tail).
      repeat split; [right; exists t; exact E|].
      intros a b _. cbn [length]. lia.
    + exists (c :: items), tail. repeat split; [exact Ht|].
      intros [|x a] b H.
      * cbn [app] in H. rewrite H, drop_prefix_self in E. discriminate.
      * cbn [app length] in *. inversion H as [[Hx Hrest]].
        specialize (Hf _ _ Hrest). lia.
Qed.

Lemma next_no_match s :
  drop_prefix next_marker s = None -> match_len next_re s = None.
Proof.
  intros H. unfold match_len, next_re, next_marker in *.
  cbn [rmatch]. rewrite H. reflexivity.
Qed.

Lemma next_match_span u :
  exists span tail, u = span ++ tail /\ stops_at [nl] tail
    /\ match_len next_re (next_marker ++ u)
       = Some (length next_marker + length span).
Proof.
  destruct (split_line u) as (rest & tail & -> & Hr & Ht).
  exists rest, tail. repeat split; [exact Ht|].
  rewrite next_re_line_tail. unfold next_marker.
  apply line_tail_match; assumption.
Qed.

Lemma next_marker_facts :
  next_marker <> [] /\ no_nl next_marker = true
  /\ forallb (fun c => negb (char_eqb c number_sign)) next_marker = true.
Proof. split; [discriminate | split; vm_compute; reflexivity]. Qed.

Lemma toc_marker_shape :
  toc_marker = number_sign :: number_sign :: toc_heading_text
  /\ utf8 "##" = [number_sign; number_sign]
  /\ forallb (fun c => negb (char_eqb c number_sign)) toc_heading_text = true
  /\ no_nl toc_marker = true.
Proof.
  split; [vm_compute; reflexivity|].
  split; [vm_compute; reflexivity|].
  split; vm_compute; reflexivity.
Qed.

Lemma forallb_not_in (d : char) (m : str) :
  forallb (fun c => negb (char_eqb c d)) m = true -> ~ In d m.
Proof.
  intros H Hin. rewrite forallb_forall in H. specialize (H _ Hin).
  unfold char_eqb in H. rewrite N.eqb_refl in H. discriminate.
Qed.

Lemma toc_no_match s :
  drop_prefix toc_marker s = None -> match_len toc_re s = None.
Proof.
  intros H. unfold match_len. rewrite toc_re_marker.
  cbn [rmatch]. rewrite H. reflexivity.
Qed.

Lemma toc_match_span u :
  exists span tail, u = span ++ tail
    /\ stops_at [number_sign; number_sign] tail
    /\ match_len toc_re (toc_marker ++ u)
       = Some (length toc_marker + length span).
Proof.
  destruct toc_marker_shape as (_ & Hh & _).
  destruct (split_heading u) as (items & tail & -> & Ht & Hf).
  exists items, tail. repeat split.
  - unfold at_heading_or_end in Ht. rewrite Hh in Ht. exact Ht.
  - unfold match_len. rewrite toc_re_marker.
    cbn [rmatch]. rewrite drop_prefix_self.
    change (lazy_star _ _ (items ++ tail)) with
      (rmatch (Then (AnyLazy true) (Look (Or (Chars (utf8 "##")) EndZ)))
              (fun rest => Some rest) (items ++ tail)).
    rewrite (toc_items_match _ _ Ht Hf).
    rewrite !length_app. f_equal. lia.
Qed.

(** The first step leaves no table-of-contents heading. *)
Lemma remove_toc_removes_all s : ~ occurs toc_marker (remove_toc s).
Proof.
  destruct toc_marker_shape as (Hs & _ & Hfree & _).
  pose proof toc_no_match as Hno. pose proof toc_match_span as Hyes.
  unfold remove_toc. rewrite Hs in *.
  apply (heading_sub_removes_all toc_re number_sign toc_heading_text []).
  - discriminate.
  - apply forallb_not_in, Hfree.
  - exact Hno.
  - exact Hyes.
Qed.

(** What has no number sign and occurs after the first step occurred
    before it. *)
Lemma remove_toc_occurs m s :
  ~ In number_sign m -> occurs m (remove_toc s) -> occurs m s.
Proof.
  destruct toc_marker_shape as (Hs & _).
  pose proof toc_no_match as Hno. pose proof toc_match_span as Hyes.
  unfold remove_toc. rewrite Hs in *. intros Hm.
  apply (span_sub_occurs toc_re
           (number_sign :: number_sign :: toc_heading_text)
           number_sign [number_sign]); auto.
  discriminate.
Qed.

(** The second step leaves no breadcrumb. *)
Lemma remove_next_removes_all s : ~ occurs next_marker (remove_next s).
Proof.
  destruct next_marker_facts as (Hne & Hnl & _).
  unfold remove_next.
  apply (span_sub_removes_all next_re next_marker nl [] Hne
           next_no_match next_match_span).
  apply no_nl_spec, Hnl.
Qed.

(** What has no newline and occurs after the second step occurred before
    it. *)
Lemma remove_next_occurs m s :
  ~ In nl m -> occurs m (remove_next s) -> occurs m s.
Proof.
  destruct next_marker_facts as (Hne & _). unfold remove_next. intros Hm.
  apply (span_sub_occurs next_re next_marker nl [] Hne
           next_no_match next_match_span); exact Hm.
Qed.

(** ** The collapse makes no text that has no newline *)

Lemma collapse_starts s : forall m,
  ~ In nl m ->
  starts_with m (sub_at newlines_re [nl; nl] 0 s) -> starts_with m s.
Proof.
  induction s as [|c s IH]; intros m Hm H.
  - exact H.
  - destruct m as [|a m]; [apply starts_with_nil|].
    rewrite sub_at_0_cons, match_len_newlines in H.
    destruct (3 <=? run_len (c :: s)) eqn:L.
    + exfalso. apply Nat.leb_le in L.
      destruct (run_len (c :: s)) as [|n]; [lia|].
      cbn [app] in H. apply starts_with_cons_inv in H. destruct H as [-> _].
      apply Hm. left. reflexivity.
    + apply starts_with_cons_inv in H. destruct H as [-> H].
      apply starts_with_cons, IH; [|exact H].
      intros Hin. apply Hm. right. exact Hin.
Qed.

Lemma occurs_nil s : occurs [] s.
Proof. exists [], s. reflexivity. Qed.

Lemma collapse_occurs_at m : ~ In nl m -> forall s,
  (occurs m (sub_at newlines_re [nl; nl] 0 s) -> occurs m s)
  /\ (occurs m (sub_at newlines_re [nl; nl] (run_len s) s) -> occurs m s).
Proof.
  intros Hm. destruct m as [|a m]; [intros s; split; intros _; apply occurs_nil|].
  assert (Ha : a <> nl) by (intros ->; apply Hm; left; reflexivity).
  induction s as [|c s [IHa IHb]].
  - split; intros H; exact H.
  - assert (A : occurs (a :: m) (sub_at newlines_re [nl; nl] 0 (c :: s)) ->
                occurs (a :: m) (c :: s)).
    { intros H. pose proof H as H0.
      rewrite sub_at_0_cons, match_len_newlines in H.
      destruct (3 <=? run_len (c :: s)) eqn:L.
      - apply Nat.leb_le in L.
        destruct (char_eqb c nl) eqn:E;
          [|rewrite (run_len_cons_other _ _ E) in L; lia].
        apply char_eqb_eq in E. subst c. rewrite run_len_cons_nl in H.
        cbn [app] in H.
        apply occurs_cons_inv in H. destruct H as [H | H];
          [apply starts_with_cons_inv in H; destruct H; congruence|].
        apply occurs_cons_inv in H. destruct H as [H | H];
          [apply starts_with_cons_inv in H; destruct H; congruence|].
        apply occurs_cons, IHb, H.
      - apply occurs_cons_inv in H. destruct H as [H | H].
        + apply starts_with_occurs, (collapse_starts _ _ Hm).
          rewrite sub_at_0_cons, match_len_newlines, L. exact H.
        + apply occurs_cons, IHa, H. }
    split; [exact A|].
    destruct (char_eqb c nl) eqn:E.
    + apply char_eqb_eq in E. subst c. rewrite run_len_cons_nl.
      cbn [sub_at]. intros H. apply occurs_cons, IHb, H.
    + rewrite (run_len_cons_other _ _ E). exact A.
Qed.

(** What has no newline and occurs after the collapse occurred before
    it. *)
Lemma collapse_occurs m s :
  ~ In nl m -> occurs m (collapse_newlines s) -> occurs m s.
Proof. intros Hm. apply (collapse_occurs_at m Hm s). Qed.

(** ** Texts without comment and without footer *)

Lemma last_updated_no_match s :
  drop_prefix footer_marker s = None -> match_len last_updated_re s = None.
Proof.
  intros H. unfold match_len. rewrite last_updated_re_line_tail.
  unfold line_tail_re. cbn [rmatch]. rewrite H. reflexivity.
Qed.

Lemma comment_no_match s :
  drop_prefix comment_open s = None -> match_len comment_re s = None.
Proof.
  intros H. unfold match_len. rewrite comment_re_marks.
  cbn [rmatch]. rewrite H. reflexivity.
Qed.

Lemma footer_marker_text :
  footer_marker = (utf8 "---" ++ [nl; nl]) ++ last_updated_text ++ [].
Proof.
  unfold footer_marker, last_updated_text.
  rewrite app_nil_r, <- app_assoc. reflexivity.
Qed.

Lemma plain_markers :
  (no_nl comment_open = true
   /\ forallb (fun c => negb (char_eqb c number_sign)) comment_open = true)
  /\ (no_nl last_updated_text = true
      /\ forallb (fun c => negb (char_eqb c number_sign)) last_updated_text
         = true).
Proof. split; split; vm_compute; reflexivity. Qed.

(** What the cleaner makes of a text with no "<!--" and no
    "*Last updated:": the table-of-contents and breadcrumb steps, the
    collapse and the trim; and that text has none of the two either, no
    table-of-contents heading and no breadcrumb. *)
Lemma clean_plain x :
  ~ occurs comment_open x -> ~ occurs last_updated_text x ->
  _clean_markdown_content x
  = strip (collapse_newlines (remove_next (remove_toc x)))
  /\ (forall m, In m [comment_open; last_updated_text; toc_marker; next_marker]
                -> ~ occurs m (collapse_newlines (remove_next (remove_toc x)))).
Proof.
  intros Hc Hu.
  destruct plain_markers as ((Cn & Ch) & (Un & Uh)).
  destruct toc_marker_shape as (_ & _ & _ & Tn).
  destruct next_marker_facts as (_ & Nn & _).
  apply no_nl_spec in Cn, Un, Tn, Nn. apply forallb_not_in in Ch, Uh.
  set (s1 := remove_toc x). set (s2 := remove_next s1).
  assert (C2 : ~ occurs comment_open s2).
  { intros H. apply Hc, (remove_toc_occurs _ _ Ch),
      (remove_next_occurs _ _ Cn), H. }
  assert (U2 : ~ occurs last_updated_text s2).
  { intros H. apply Hu, (remove_toc_occurs _ _ Uh),
      (remove_next_occurs _ _ Un), H. }
  assert (T2 : ~ occurs toc_marker s2).
  { intros H. apply (remove_toc_removes_all x),
      (remove_next_occurs _ _ Tn), H. }
  assert (N2 : ~ occurs next_marker s2) by apply remove_next_removes_all.
  assert (F2 : ~ occurs footer_marker s2).
  { intros H. apply U2. rewrite footer_marker_text in H.
    apply (occurs_part _ _ _ _ H). }
  assert (All : forall m,
             In m [comment_open; last_updated_text; toc_marker; next_marker] ->
             ~ occurs m (collapse_newlines s2)).
  { intros m Hin H. cbn [In] in Hin.
    destruct Hin as [<- | [<- | [<- | [<- | []]]]].
    - apply C2, (collapse_occurs _ _ Cn), H.
    - apply U2, (collapse_occurs _ _ Un), H.
    - apply T2, (collapse_occurs _ _ Tn), H.
    - apply N2, (collapse_occurs _ _ Nn), H. }
  split; [|exact All].
  unfold _clean_markdown_content. fold s1 s2.
  unfold remove_last_updated.
  rewrite (re_sub_no_match last_updated_re [] s2)
    by (apply (literal_needed _ footer_marker), F2; apply last_updated_no_match).
  fold (collapse_newlines s2). unfold remove_comments.
  rewrite (re_sub_no_match comment_re [] (collapse_newlines s2)); [reflexivity|].
  apply (literal_needed _ comment_open); [apply comment_no_match|].
  apply All. left. reflexivity.
Qed.

(** C1 (as amended): on a text that holds no "<!--" and no
    "*Last updated:", cleaning the cleaned text again changes nothing. *)
Theorem clean_idempotent_without_comment_or_footer (x : str) :
  contains comment_open x = false ->
  contains last_updated_text x = false ->
  _clean_markdown_content (_clean_markdown_content x)
  = _clean_markdown_content x.
Proof.
  intros Hc Hu. apply not_contains_occurs in Hc, Hu.
  destruct (clean_plain x Hc Hu) as [E All]. rewrite E.
  set (s4 := collapse_newlines (remove_next (remove_toc x))) in *.
  assert (Ally : forall m,
             In m [comment_open; last_updated_text; toc_marker; next_marker] ->
             ~ occurs m (strip s4)).
  { intros m Hin H. apply (All m Hin), occurs_strip, H. }
  apply clean_fixed_point_iff. split; [|apply strip_idem].
  unfold nothing_to_clean.
  rewrite (literal_needed toc_re toc_marker (strip s4) toc_no_match)
    by (apply Ally; cbn [In]; auto).
  rewrite (literal_needed next_re next_marker (strip s4) next_no_match)
    by (apply Ally; cbn [In]; auto).
  rewrite (literal_needed last_updated_re footer_marker (strip s4)
             last_updated_no_match).
  2:{ intros H. rewrite footer_marker_text in H.
      apply occurs_part in H. revert H. apply Ally. cbn [In]. auto. }
  rewrite (literal_needed comment_re comment_open (strip s4) comment_no_match)
    by (apply Ally; cbn [In]; auto).
  replace (has_match newlines_re (strip s4)) with false; [reflexivity|].
  symmetry. rewrite no_run_contains. apply not_occurs_contains.
  intros H. apply occurs_strip, contains_occurs in H.
  rewrite <- no_run_contains in H. unfold s4 in H.
  rewrite collapse_leaves_no_run in H. discriminate.
Qed.

(** C1 on a page with a table of contents, a breadcrumb and runs of blank
    lines. *)
Lemma clean_idempotent_on_plain_page :
  _clean_markdown_content (_clean_markdown_content plain_page)
  = _clean_markdown_content plain_page.
Proof.
  apply clean_idempotent_without_comment_or_footer; vm_compute; reflexivity.
Defined.

(** With a footer the cleaner is not idempotent either: removing the
    first footer of ["------\n\n*Last updated: a\n\n*Last updated: b"]
    joins the rule before it to the second one. *)
Lemma clean_not_idempotent_footer :
  _clean_markdown_content
    (utf8 "------" ++ [nl; nl] ++ utf8 "*Last updated: a" ++ [nl; nl]
       ++ utf8 "*Last updated: b")
  = utf8 "---" ++ [nl; nl] ++ utf8 "*Last updated: b"
  /\ _clean_markdown_content
       (_clean_markdown_content
          (utf8 "------" ++ [nl; nl] ++ utf8 "*Last updated: a" ++ [nl; nl]
             ++ utf8 "*Last updated: b")) = [].
Proof. split; vm_compute; reflexivity. Qed.

(** * The sections of the full dump, for any generator *)

Lemma doc_parts_has_text doc :
  doc_parts doc = if has_text doc then doc_section doc else [].
Proof.
  unfold doc_parts, has_text, doc_section.
  destruct (strip (content doc)); reflexivity.
Qed.

Lemma full_parts_has_text docs :
  flat_map doc_parts docs = flat_map doc_section (filter has_text docs).
Proof.
  induction docs as [|doc docs IH]; [reflexivity|].
  cbn [flat_map filter]. rewrite doc_parts_has_text, IH.
  destruct (has_text doc); reflexivity.
Qed.

Lemma of_priority_app p a b :
  of_priority p (a ++ b) = of_priority p a ++ of_priority p b.
Proof. apply filter_app. Qed.

Lemma loaded_has_text fs dir doc :
  In doc (loaded fs dir) -> has_text doc = has_content doc.
Proof.
  intros H. apply loaded_In in H. destruct H as (entry & f & _ & _ & ->).
  unfold has_text, has_content. cbn [content entry_record].
  rewrite entry_content_stripped. reflexivity.
Qed.

(** C5: whatever records the generator holds before a run, after it the
    records are in ascending order of priority, those of one priority in
    the order in which they were appended (the earlier ones, then the
    loaded ones in the order of the configuration table); the full dump
    is made of its two fixed parts, one section (rule and H2 title,
    description in italics, content, blank line) for each record whose
    content is not empty once stripped, in that order, and the quick
    reference; a record whose content is empty adds nothing.  What is
    written is that text with its runs of newlines collapsed. *)
Theorem full_dump_sections_sorted (self : LLMsTxtGenerator) (w : world) :
  let after := fst (run self w) in
  let new := loaded (files w) (docs_dir self) in
  let emitted := filter has_text (doc_files after) in
  StronglySorted priority_le (doc_files after)
  /\ (forall p, of_priority p (doc_files after)
                = of_priority p (doc_files self) ++ of_priority p new)
  /\ StronglySorted table_order new
  /\ (doc_files self = [] -> StronglySorted before (doc_files after))
  /\ StronglySorted priority_le emitted
  /\ full_content_parts after
     = [full_title; full_overview]
         ++ flat_map doc_section emitted ++ [_build_quick_reference]
  /\ (forall doc, In doc new -> has_text doc = has_content doc)
  /\ files (snd (run self w))
           (path_join (output_dir self) (utf8 "llms-full.txt"))
     = Some (Text (collapse_newlines (concat (full_content_parts after)))).
Proof.
  intros after new emitted. subst after new emitted.
  destruct (run_spec self w) as (Hg & Hf & _).
  rewrite Hf, Hg, str_eqb_refl.
  unfold parsed. cbn [doc_files].
  assert (Hs : StronglySorted priority_le
                 (sort_by_priority
                    (doc_files self ++ loaded (files w) (docs_dir self))))
    by apply sort_priority_sorted.
  split; [exact Hs|].
  split; [intros p; rewrite of_priority_sort; apply of_priority_app|].
  split; [apply loaded_in_table_order|].
  split; [intros ->; cbn [app]; apply sort_sorted, loaded_in_table_order|].
  split; [apply StronglySorted_filter, Hs|].
  split.
  - unfold full_content_parts. cbn [doc_files].
    rewrite full_parts_has_text. reflexivity.
  - split; [apply loaded_has_text | reflexivity].
Qed.

(** C5 for a generator that held a record of priority 5 and one of
    priority 1, in the sample world: the earlier record of priority 1 goes
    before the loaded one, the record of priority 5 last. *)
Lemma full_dump_of_unsorted_generator :
  StronglySorted priority_le
    (doc_files (fst (run unsorted_generator sample_world)))
  /\ map path (doc_files (fst (run unsorted_generator sample_world)))
     = [utf8 "a.md"; utf8 "README.md"; utf8 "architecture.md"; utf8 "z.md"].
Proof.
  split.
  - exact (proj1 (full_dump_sections_sorted unsorted_generator sample_world)).
  - vm_compute. reflexivity.
Defined.
